(** * OTP service (server.js): the OTP lifecycle core

    A shallow embedding of the in-memory OTP store of [server.js]
    ([otpStore], [storeOTP], [verifyOTP] and the periodic clean-up loop),
    of the code generator [generateOTP] and of the three POST handlers,
    together with the properties of its natural-language specification and
    further properties of the code.

    Conventions.
    - [otpStore] is a JavaScript [Map] keyed by the identifier string; it is
      modelled as a finite map [gmap string OtpRecord].  Every function that
      reads or writes [otpStore] takes the store as an argument and returns
      the new store.
    - [Date.now()] is an input of each operation (milliseconds since the
      epoch, an integer), written [now].
    - The objects returned by [verifyOTP] are records [{success; message}]. *)

From Stdlib Require Import ZArith String Ascii Lia SpecFloat.
From stdpp Require Import gmap strings list fin_maps.

Local Open Scope Z_scope.
Local Open Scope string_scope.

(** ** Data model *)

(** The object literal stored by [storeOTP] (server.js, lines 42-46). *)
Record OtpRecord : Type := mkOtpRecord {
  otp : string;
  expiresAt : Z;
  attempts : Z
}.

(** The object literal returned by [verifyOTP]. *)
Record VerifyResult : Type := mkVerifyResult {
  success : bool;
  message : string
}.

Abbreviation Store := (gmap string OtpRecord).

(** A JavaScript value, as far as reading a property of a stored record can
    produce one. *)
Inductive JsValue : Type :=
  | JsString (s : string)
  | JsNumber (n : Z)
  | JsUndefined.

(** [data[name]] for a record built by the literal of [storeOTP]: the literal
    has the three properties [otp], [expiresAt] and [attempts]; any other
    property reads as [undefined]. *)
Definition getProperty (data : OtpRecord) (name : string) : JsValue :=
  if String.eqb name "otp" then JsString (otp data)
  else if String.eqb name "expiresAt" then JsNumber (expiresAt data)
  else if String.eqb name "attempts" then JsNumber (attempts data)
  else JsUndefined.

(** The five results of [verifyOTP], named as in the specification. *)
Definition NotFound : VerifyResult := mkVerifyResult false "OTP not found or expired".
Definition Expired : VerifyResult := mkVerifyResult false "OTP has expired".
Definition LockedOut : VerifyResult := mkVerifyResult false "Maximum attempts exceeded".
Definition Mismatch : VerifyResult := mkVerifyResult false "Invalid OTP".
Definition Success : VerifyResult := mkVerifyResult true "OTP verified successfully".

(** [10 * 60 * 1000]: ten minutes in milliseconds. *)
Definition TTL : Z := 10 * 60 * 1000.

(** ** Operations *)

(** [storeOTP(identifier, otp)], lines 40-47. *)
Definition storeOTP (now : Z) (identifier code : string) (otpStore : Store) : Store :=
  let expirationTime := now + TTL in
  <[identifier := {| otp := code; expiresAt := expirationTime; attempts := 0 |}]> otpStore.

(** [storedData.attempts++] on the record held by the map. *)
Definition incrAttempts (storedData : OtpRecord) : OtpRecord :=
  {| otp := otp storedData;
     expiresAt := expiresAt storedData;
     attempts := attempts storedData + 1 |}.

(** [verifyOTP(identifier, otp)], lines 50-75.  The record is an object
    shared with the map, so the increment of line 68 is an update of the
    entry of [identifier]. *)
Definition verifyOTP (now : Z) (identifier code : string) (otpStore : Store)
  : VerifyResult * Store :=
  match otpStore !! identifier with
  | None => (NotFound, otpStore)
  | Some storedData =>
      if now >? expiresAt storedData then
        (Expired, delete identifier otpStore)
      else if attempts storedData >=? 3 then
        (LockedOut, delete identifier otpStore)
      else if negb (String.eqb (otp storedData) code) then
        (Mismatch, <[identifier := incrAttempts storedData]> otpStore)
      else
        (Success, delete identifier otpStore)
  end.

(** The body of the clean-up loop, lines 234-238, over the entries the
    iterator yields.  Deleting the entry being visited is allowed during the
    iteration of a [Map] and skips no other entry, so the loop visits every
    entry present when it starts exactly once. *)
Definition sweepLoop (now : Z) (entries : list (string * OtpRecord)) (otpStore : Store)
  : Store :=
  foldl (fun st '(identifier, data) =>
           if now >? expiresAt data then delete identifier st else st)
        otpStore entries.

(** The callback of [setInterval], lines 232-239. *)
Definition sweepExpired (now : Z) (otpStore : Store) : Store :=
  sweepLoop now (map_to_list otpStore) otpStore.

(** ** Histories of operations *)

Inductive Op : Type :=
  | Issue (now : Z) (identifier code : string)
  | Verify (now : Z) (identifier code : string)
  | Sweep (now : Z).

Definition step (o : Op) (st : Store) : Store :=
  match o with
  | Issue now identifier code => storeOTP now identifier code st
  | Verify now identifier code => snd (verifyOTP now identifier code st)
  | Sweep now => sweepExpired now st
  end.

(** The store after a history, oldest operation first, from the empty map of
    line 17. *)
Definition run (ops : list Op) : Store := foldl (fun st o => step o st) ∅ ops.

(** The bound on [attempts] that every stored record obeys. *)
Definition attemptsBounded (st : Store) : Prop :=
  forall identifier data, st !! identifier = Some data -> 0 <= attempts data <= 3.

(** ** The code generator

    [generateOTP] (lines 35-37) computes on IEEE 754 doubles.  A double is a
    [spec_float] of the binary64 format (53 bits of precision, exponents
    below 1024); products and sums round to nearest, ties to even. *)

Definition f64mul : spec_float -> spec_float -> spec_float := SFmul 53 1024.
Definition f64add : spec_float -> spec_float -> spec_float := SFadd 53 1024.
Definition f64ofZ (n : Z) : spec_float := binary_normalize 53 1024 n 0 false.

(** [Math.random()] returns a double that is at least [+0] and less than
    [1]. *)
Definition isRandomValue (r : spec_float) : bool :=
  valid_binary 53 1024 r && SFleb (S754_zero false) r && SFltb r (f64ofZ 1).

Definition digitChar (d : Z) : ascii := ascii_of_N (48 + Z.to_N d).

(** The decimal digits of [n >= 0], most significant first, in front of
    [acc]. *)
Fixpoint decimalDigits (fuel : nat) (n : Z) (acc : string) : string :=
  match fuel with
  | O => acc
  | S fuel' =>
      let acc' := String (digitChar (n mod 10)) acc in
      if (n / 10 =? 0)%Z then acc' else decimalDigits fuel' (n / 10) acc'
  end.

(** [toString] of a number with an integer value. *)
Definition integerToString (n : Z) : string :=
  if (n <? 0)%Z then String "-" (decimalDigits (S (Z.to_nat (Z.log2 (- n)))) (- n) EmptyString)
  else decimalDigits (S (Z.to_nat (Z.log2 n))) n EmptyString.

(** [Math.floor(x).toString()].  Values of magnitude [1e21] and more print
    with an exponent in JavaScript; they do not arise below. *)
Definition floorToString (x : spec_float) : string :=
  match x with
  | S754_nan => "NaN"
  | S754_infinity s => if s then "-Infinity" else "Infinity"
  | S754_zero _ => "0"
  | S754_finite s m e => integerToString (Z.shiftl (cond_Zopp s (Z.pos m)) e)
  end.

(** [generateOTP()], line 36, as a function of the value of [Math.random()]. *)
Definition generateOTP (random : spec_float) : string :=
  floorToString (f64add (f64ofZ 100000) (f64mul random (f64ofZ 900000))).

(** ** Request handlers

    The handlers read fields of [req.body]; a field is absent ([None]) or
    the string the client sent.  [!field] holds for an absent field and for
    the empty string.  A handler is a function of the clock, of the fields
    it reads, of the value of [Math.random()] and of whether the call to the
    delivery service resolved; it returns the response and the new store.
    What is sent to the delivery service is not part of this model.

    Each handler comes in two layers.  [postSendEmailOtp], [postSendSmsOtp]
    and [postVerifyOtp] are the handler once [req.body] has been
    destructured, as functions of the fields.  [sendEmailOtpRoute],
    [sendSmsOtpRoute] and [verifyOtpRoute] are the whole handlers, as
    functions of [req.body], which is [undefined] when the request carries
    no parsed body: the destructuring then throws inside [try] and the
    [catch] branch answers 500. *)

Record JsonBody : Type := mkJsonBody {
  bodySuccess : bool;
  bodyMessage : string;
  bodyExpiresIn : option string
}.

Record HttpResponse : Type := mkHttpResponse {
  status : Z;
  body : JsonBody
}.

(** [res.json(result)] for a result of [verifyOTP]. *)
Definition jsonOfResult (result : VerifyResult) : JsonBody :=
  mkJsonBody (success result) (message result) None.

(** [app.post('/send-email-otp', ...)], lines 82-150, after the destructuring
    of line 80: the guard, the issue, the delivery and the [catch] of a
    delivery that failed. *)
Definition postSendEmailOtp (now : Z) (random : spec_float) (delivered : bool)
    (email : option string) (otpStore : Store) : HttpResponse * Store :=
  match email with
  | None => (mkHttpResponse 400 (mkJsonBody false "Email is required" None), otpStore)
  | Some address =>
      if String.eqb address EmptyString then
        (mkHttpResponse 400 (mkJsonBody false "Email is required" None), otpStore)
      else
        let code := generateOTP random in
        let stored := storeOTP now address code otpStore in
        if delivered then
          (mkHttpResponse 200
             (mkJsonBody true "OTP sent successfully to your email" (Some "10 minutes")),
           stored)
        else
          (mkHttpResponse 500 (mkJsonBody false "Failed to send OTP email" None), stored)
  end.

(** [app.post('/send-sms-otp', ...)], lines 158-188, after the destructuring
    of line 156: the guard, the issue, the delivery and the [catch] of a
    delivery that failed. *)
Definition postSendSmsOtp (now : Z) (random : spec_float) (delivered : bool)
    (phone : option string) (otpStore : Store) : HttpResponse * Store :=
  match phone with
  | None => (mkHttpResponse 400 (mkJsonBody false "Phone number is required" None), otpStore)
  | Some number =>
      if String.eqb number EmptyString then
        (mkHttpResponse 400 (mkJsonBody false "Phone number is required" None), otpStore)
      else
        let code := generateOTP random in
        let stored := storeOTP now number code otpStore in
        if delivered then
          (mkHttpResponse 200
             (mkJsonBody true "OTP sent successfully to your phone" (Some "10 minutes")),
           stored)
        else
          (mkHttpResponse 500 (mkJsonBody false "Failed to send OTP SMS" None), stored)
  end.

(** [app.post('/verify-otp', ...)], lines 196-209, after the destructuring
    of line 194: the guard, the call of [verifyOTP] and the answer. *)
Definition postVerifyOtp (now : Z) (identifier submitted : option string)
    (otpStore : Store) : HttpResponse * Store :=
  match identifier, submitted with
  | Some ident, Some code =>
      if String.eqb ident EmptyString || String.eqb code EmptyString then
        (mkHttpResponse 400 (mkJsonBody false "Identifier and OTP are required" None),
         otpStore)
      else
        let '(result, st) := verifyOTP now ident code otpStore in
        if success result then (mkHttpResponse 200 (jsonOfResult result), st)
        else (mkHttpResponse 400 (jsonOfResult result), st)
  | _, _ =>
      (mkHttpResponse 400 (mkJsonBody false "Identifier and OTP are required" None),
       otpStore)
  end.

(** [req.body] when the JSON body of the request was parsed: the string
    fields that the handlers read, each absent or present. *)
Record RequestBody : Type := mkRequestBody {
  reqEmail : option string;
  reqPhone : option string;
  reqIdentifier : option string;
  reqOtp : option string
}.

(** [app.post('/send-email-otp', ...)], lines 78-151, as a function of
    [req.body]; [None] is [undefined], for which the destructuring of line
    80 throws and the [catch] of lines 144-150 answers. *)
Definition sendEmailOtpRoute (now : Z) (random : spec_float) (delivered : bool)
    (reqBody : option RequestBody) (otpStore : Store) : HttpResponse * Store :=
  match reqBody with
  | None => (mkHttpResponse 500 (mkJsonBody false "Failed to send OTP email" None), otpStore)
  | Some fields => postSendEmailOtp now random delivered (reqEmail fields) otpStore
  end.

(** [app.post('/send-sms-otp', ...)], lines 154-189, as a function of
    [req.body]; the throw of line 156 is caught at lines 182-188. *)
Definition sendSmsOtpRoute (now : Z) (random : spec_float) (delivered : bool)
    (reqBody : option RequestBody) (otpStore : Store) : HttpResponse * Store :=
  match reqBody with
  | None => (mkHttpResponse 500 (mkJsonBody false "Failed to send OTP SMS" None), otpStore)
  | Some fields => postSendSmsOtp now random delivered (reqPhone fields) otpStore
  end.

(** [app.post('/verify-otp', ...)], lines 192-218, as a function of
    [req.body]; the throw of line 194 is caught at lines 211-217. *)
Definition verifyOtpRoute (now : Z) (reqBody : option RequestBody) (otpStore : Store)
  : HttpResponse * Store :=
  match reqBody with
  | None => (mkHttpResponse 500 (mkJsonBody false "Failed to verify OTP" None), otpStore)
  | Some fields => postVerifyOtp now (reqIdentifier fields) (reqOtp fields) otpStore
  end.

(** ** Repeated verification

    Successive calls of [verifyOTP] for one identifier, each with its clock
    value and submitted code; the results are listed in call order. *)
Fixpoint verifyEach (identifier : string) (calls : list (Z * string)) (otpStore : Store)
  : list VerifyResult * Store :=
  match calls with
  | [] => ([], otpStore)
  | (now, code) :: rest =>
      let '(result, st) := verifyOTP now identifier code otpStore in
      let '(results, final) := verifyEach identifier rest st in
      (result :: results, final)
  end.

#[global] Instance VerifyResult_eq_dec : EqDecision VerifyResult.
Proof. solve_decision. Defined.

(** ** The server as a whole

    What reaches the store: the three POST routes and the ticks of the
    clean-up timer. *)
Inductive Request : Type :=
  | SendEmailOtp (now : Z) (random : spec_float) (delivered : bool) (email : option string)
  | SendSmsOtp (now : Z) (random : spec_float) (delivered : bool) (phone : option string)
  | VerifyOtp (now : Z) (identifier submitted : option string)
  | CleanupTick (now : Z).

Definition handle (request : Request) (st : Store) : Store :=
  match request with
  | SendEmailOtp now random delivered email =>
      snd (postSendEmailOtp now random delivered email st)
  | SendSmsOtp now random delivered phone =>
      snd (postSendSmsOtp now random delivered phone st)
  | VerifyOtp now identifier submitted => snd (postVerifyOtp now identifier submitted st)
  | CleanupTick now => sweepExpired now st
  end.

(** The store after the requests, oldest first, from the empty map of
    line 17. *)
Definition serve (requests : list Request) : Store :=
  foldl (fun st request => handle request st) ∅ requests.

(** The values of [Math.random()] in the requests are doubles in [0, 1). *)
Definition randomInRange (request : Request) : Prop :=
  match request with
  | SendEmailOtp _ random _ _ | SendSmsOtp _ random _ _ => isRandomValue random = true
  | _ => True
  end.

(** ** Notions used in the proofs about rounding *)

(** The state of the right shift after [k] steps on the integer [X]: the
    mantissa is the quotient, and the round bit is set only when the
    remainder is at least half of [2 ^ k]. *)
Definition shrInv (X k : Z) (mrs : shr_record) : Prop :=
  shr_m mrs = X / 2 ^ k /\ (shr_r mrs = true -> 2 ^ k <= 2 * (X mod 2 ^ k)).

(** The last step of [binary_round_aux]: a second shift, then the choice
    of the result. *)
Definition finishRound (m1 e1 : Z) : spec_float :=
  let k2 := Z.max 0 (fexp 53 1024 (Zdigits2 m1 + e1) - e1) in
  match m1 / 2 ^ k2 with
  | Z0 => S754_zero false
  | Z.pos m => if (e1 + k2 <=? 1024 - 53)%Z then S754_finite false m (e1 + k2)
               else S754_infinity false
  | Z.neg _ => S754_nan
  end.

(** * Properties *)

(** ** The results are pairwise distinct *)

Lemma results_distinct :
  NotFound <> Expired /\ NotFound <> LockedOut /\ NotFound <> Mismatch /\
  NotFound <> Success /\ Expired <> LockedOut /\ Expired <> Mismatch /\
  Expired <> Success /\ LockedOut <> Mismatch /\ LockedOut <> Success /\
  Mismatch <> Success.
Proof. repeat split; discriminate. Qed.

(** ** One lemma per branch of [verifyOTP] *)

Section VerifyBranches.
Variables (now : Z) (identifier code : string) (otpStore : Store).

Lemma verify_absent :
  otpStore !! identifier = None ->
  verifyOTP now identifier code otpStore = (NotFound, otpStore).
Proof. intros H. unfold verifyOTP. now rewrite H. Qed.

Variable storedData : OtpRecord.
Hypothesis Hget : otpStore !! identifier = Some storedData.

Lemma verify_expired :
  now > expiresAt storedData ->
  verifyOTP now identifier code otpStore = (Expired, delete identifier otpStore).
Proof.
  intros Hexp. unfold verifyOTP. rewrite Hget.
  destruct (Z.gtb_spec now (expiresAt storedData)); [reflexivity | lia].
Qed.

Hypothesis Hlive : now <= expiresAt storedData.

Lemma verify_locked :
  attempts storedData >= 3 ->
  verifyOTP now identifier code otpStore = (LockedOut, delete identifier otpStore).
Proof.
  intros Hcap. unfold verifyOTP. rewrite Hget.
  destruct (Z.gtb_spec now (expiresAt storedData)); [lia |].
  destruct (Z.geb_spec (attempts storedData) 3); [reflexivity | lia].
Qed.

Hypothesis Hbelow : attempts storedData < 3.

Lemma verify_mismatch :
  otp storedData <> code ->
  verifyOTP now identifier code otpStore
  = (Mismatch, <[identifier := incrAttempts storedData]> otpStore).
Proof.
  intros Hne. unfold verifyOTP. rewrite Hget.
  destruct (Z.gtb_spec now (expiresAt storedData)); [lia |].
  destruct (Z.geb_spec (attempts storedData) 3); [lia |].
  destruct (String.eqb_spec (otp storedData) code); [contradiction | reflexivity].
Qed.

Lemma verify_match :
  otp storedData = code ->
  verifyOTP now identifier code otpStore = (Success, delete identifier otpStore).
Proof.
  intros Heq. unfold verifyOTP. rewrite Hget.
  destruct (Z.gtb_spec now (expiresAt storedData)); [lia |].
  destruct (Z.geb_spec (attempts storedData) 3); [lia |].
  destruct (String.eqb_spec (otp storedData) code); [reflexivity | contradiction].
Qed.
End VerifyBranches.

(** C1. A verify call evaluates its cases in this order: no record for the
    identifier gives [NotFound], with the message 'OTP not found or expired'
    and the store untouched; otherwise [now > expiresAt] deletes the record
    and gives [Expired]; otherwise [attempts >= 3] deletes the record and
    gives [LockedOut]; otherwise a submitted code that differs from the stored
    one increments [attempts], keeps the record and gives [Mismatch];
    otherwise the record is deleted and the result is [Success]. *)
Theorem verifyOTP_cases (now : Z) (identifier code : string) (otpStore : Store) :
  message NotFound = "OTP not found or expired" /\
  (otpStore !! identifier = None ->
     verifyOTP now identifier code otpStore = (NotFound, otpStore)) /\
  (forall storedData, otpStore !! identifier = Some storedData ->
     (now > expiresAt storedData ->
        verifyOTP now identifier code otpStore = (Expired, delete identifier otpStore)) /\
     (now <= expiresAt storedData -> attempts storedData >= 3 ->
        verifyOTP now identifier code otpStore = (LockedOut, delete identifier otpStore)) /\
     (now <= expiresAt storedData -> attempts storedData < 3 -> otp storedData <> code ->
        fst (verifyOTP now identifier code otpStore) = Mismatch /\
        snd (verifyOTP now identifier code otpStore) !! identifier
        = Some {| otp := otp storedData;
                  expiresAt := expiresAt storedData;
                  attempts := attempts storedData + 1 |} /\
        (forall other, other <> identifier ->
           snd (verifyOTP now identifier code otpStore) !! other = otpStore !! other)) /\
     (now <= expiresAt storedData -> attempts storedData < 3 -> otp storedData = code ->
        verifyOTP now identifier code otpStore = (Success, delete identifier otpStore))).
Proof.
  split; [reflexivity |]. split; [apply verify_absent |].
  intros storedData Hget. repeat split.
  - now apply verify_expired.
  - now apply verify_locked.
  - erewrite verify_mismatch by eassumption. reflexivity.
  - erewrite verify_mismatch by eassumption. cbn. apply lookup_insert_eq.
  - intros other Hother. erewrite verify_mismatch by eassumption. cbn.
    now apply lookup_insert_ne.
  - now apply verify_match.
Qed.

(** C2. A live record with [attempts = 3] is locked out by the next verify
    call whatever code is submitted: the result is [LockedOut], the record is
    deleted, and the outcome does not depend on the submitted code (the
    comparison of line 67 is never reached). *)
Theorem verifyOTP_locked_at_three
    (now : Z) (identifier code : string) (otpStore : Store) (storedData : OtpRecord) :
  otpStore !! identifier = Some storedData ->
  attempts storedData = 3 ->
  now <= expiresAt storedData ->
  verifyOTP now identifier code otpStore = (LockedOut, delete identifier otpStore) /\
  snd (verifyOTP now identifier code otpStore) !! identifier = None /\
  verifyOTP now identifier (otp storedData) otpStore = (LockedOut, delete identifier otpStore) /\
  (forall code', verifyOTP now identifier code' otpStore = verifyOTP now identifier code otpStore).
Proof.
  intros Hget Hcap Hlive.
  assert (Hall : forall c, verifyOTP now identifier c otpStore
                           = (LockedOut, delete identifier otpStore)).
  { intros c. apply verify_locked with (storedData := storedData); [assumption .. | lia]. }
  repeat split.
  - apply Hall.
  - rewrite Hall. cbn. apply lookup_delete_eq.
  - apply Hall.
  - intros code'. now rewrite !Hall.
Qed.

Lemma verifyOTP_locked_at_three_witness :
  verifyOTP 5 "a@x.com" "482913"
    {[ "a@x.com" := {| otp := "482913"; expiresAt := 600000; attempts := 3 |} ]}
  = (LockedOut,
     delete "a@x.com"
       {[ "a@x.com" := {| otp := "482913"; expiresAt := 600000; attempts := 3 |} ]}).
Proof.
  refine (proj1 (verifyOTP_locked_at_three 5 "a@x.com" "482913"
            {[ "a@x.com" := {| otp := "482913"; expiresAt := 600000; attempts := 3 |} ]}
            {| otp := "482913"; expiresAt := 600000; attempts := 3 |} _ _ _)).
  - apply lookup_singleton_eq.
  - reflexivity.
  - cbn. lia.
Defined.

(** ** Issuing *)

Lemma storeOTP_lookup (now : Z) (identifier code : string) (otpStore : Store) :
  storeOTP now identifier code otpStore !! identifier
  = Some {| otp := code; expiresAt := now + TTL; attempts := 0 |}.
Proof. unfold storeOTP. apply lookup_insert_eq. Qed.

Lemma storeOTP_lookup_ne (now : Z) (identifier code other : string) (otpStore : Store) :
  other <> identifier ->
  storeOTP now identifier code otpStore !! other = otpStore !! other.
Proof. intros Hne. unfold storeOTP. now apply lookup_insert_ne. Qed.

(** C4, as the specification words it, fails: the stored record has no
    [issuedAt] property, so reading it does not give [now]. *)
Lemma storeOTP_issuedAt_counterexample :
  ~ (exists data,
       storeOTP 1000 "a@x.com" "482913" ∅ !! "a@x.com" = Some data /\
       attempts data = 0 /\
       getProperty data "issuedAt" = JsNumber 1000 /\
       expiresAt data = 1000 + TTL).
Proof.
  intros (data & Hget & _ & HissuedAt & _).
  rewrite storeOTP_lookup in Hget. injection Hget as <-.
  discriminate HissuedAt.
Qed.

(** C4, amended. [storeOTP] is total; it inserts or overwrites the record
    of the identifier with the given code, [attempts = 0] and
    [expiresAt = now + TTL], where [TTL] is ten minutes (600000 ms); the
    record has exactly the properties [otp], [expiresAt] and [attempts]
    and no [issuedAt]; the records of the other identifiers are kept. *)
Theorem storeOTP_spec (now : Z) (identifier code : string) (otpStore : Store) :
  TTL = 600000 /\
  (exists data,
     storeOTP now identifier code otpStore !! identifier = Some data /\
     otp data = code /\
     attempts data = 0 /\
     expiresAt data = now + TTL /\
     getProperty data "issuedAt" = JsUndefined) /\
  (forall other, other <> identifier ->
     storeOTP now identifier code otpStore !! other = otpStore !! other).
Proof.
  split; [reflexivity |]. split.
  - eexists. split; [apply storeOTP_lookup |]. repeat split.
  - intros other. apply storeOTP_lookup_ne.
Qed.

(** ** Issue followed by verifies *)

(** One mismatched verify on a live record below the cap, as a step on the
    store. *)
Lemma verify_mismatch_step
    (now : Z) (identifier code wrong : string) (otpStore : Store) (exp n : Z) :
  otpStore !! identifier = Some {| otp := code; expiresAt := exp; attempts := n |} ->
  now <= exp -> n < 3 -> wrong <> code ->
  verifyOTP now identifier wrong otpStore
  = (Mismatch,
     <[identifier := {| otp := code; expiresAt := exp; attempts := n + 1 |}]> otpStore).
Proof.
  intros Hget Hlive Hbelow Hne.
  erewrite verify_mismatch by (try eassumption; cbn; (lia || congruence)).
  reflexivity.
Qed.

(** C3, as the specification words it, fails: after three mismatched verifies
    on a fresh record the record is still in the store. *)
Lemma three_mismatches_counterexample :
  ~ (let st0 := storeOTP 0 "a@x.com" "482913" ∅ in
     let v1 := verifyOTP 1 "a@x.com" "111111" st0 in
     let v2 := verifyOTP 2 "a@x.com" "222222" (snd v1) in
     let v3 := verifyOTP 3 "a@x.com" "333333" (snd v2) in
     fst v1 = Mismatch /\ fst v2 = Mismatch /\ fst v3 = Mismatch /\
     snd v3 !! "a@x.com" = None).
Proof. vm_compute. intros (_ & _ & _ & H). discriminate H. Qed.

(** C3, amended. From a freshly issued record, three consecutive verify
    calls with mismatched codes, none after [expiresAt], all return
    [Mismatch]; the third leaves the record in the store with
    [attempts = 3], code and expiry unchanged. *)
Theorem three_mismatches_retained
    (t0 t1 t2 t3 : Z) (identifier code w1 w2 w3 : string) (otpStore : Store) :
  w1 <> code -> w2 <> code -> w3 <> code ->
  t1 <= t0 + TTL -> t2 <= t0 + TTL -> t3 <= t0 + TTL ->
  let st0 := storeOTP t0 identifier code otpStore in
  let v1 := verifyOTP t1 identifier w1 st0 in
  let v2 := verifyOTP t2 identifier w2 (snd v1) in
  let v3 := verifyOTP t3 identifier w3 (snd v2) in
  fst v1 = Mismatch /\ fst v2 = Mismatch /\ fst v3 = Mismatch /\
  snd v3 !! identifier = Some {| otp := code; expiresAt := t0 + TTL; attempts := 3 |}.
Proof.
  intros H1 H2 H3 L1 L2 L3 st0 v1 v2 v3.
  assert (E1 : v1 = (Mismatch,
            <[identifier := {| otp := code; expiresAt := t0 + TTL; attempts := 0 + 1 |}]> st0)).
  { apply verify_mismatch_step; [apply storeOTP_lookup | lia .. | assumption]. }
  assert (E2 : v2 = (Mismatch,
            <[identifier := {| otp := code; expiresAt := t0 + TTL; attempts := 0 + 1 + 1 |}]>
              (snd v1))).
  { apply verify_mismatch_step; [| lia .. | assumption].
    rewrite E1. cbn. apply lookup_insert_eq. }
  assert (E3 : v3 = (Mismatch,
            <[identifier := {| otp := code; expiresAt := t0 + TTL; attempts := 0 + 1 + 1 + 1 |}]>
              (snd v2))).
  { apply verify_mismatch_step; [| lia .. | assumption].
    rewrite E2. cbn. apply lookup_insert_eq. }
  rewrite E3. cbn. rewrite E2. cbn. rewrite E1. cbn.
  repeat split. apply lookup_insert_eq.
Qed.

Lemma three_mismatches_retained_witness :
  snd (verifyOTP 3 "a@x.com" "333333"
        (snd (verifyOTP 2 "a@x.com" "222222"
          (snd (verifyOTP 1 "a@x.com" "111111"
            (storeOTP 0 "a@x.com" "482913" ∅)))))) !! "a@x.com"
  = Some {| otp := "482913"; expiresAt := 0 + TTL; attempts := 3 |}.
Proof.
  refine (proj2 (proj2 (proj2
    (three_mismatches_retained 0 1 2 3 "a@x.com" "482913" "111111" "222222" "333333" ∅
       _ _ _ _ _ _)))); (discriminate || (vm_compute; discriminate)).
Defined.

(** C6. A verify with the issued code, no later than [expiresAt], right
    after the issue returns [Success] and consumes the record; a second
    verify with the same code, at any time, returns [NotFound]. *)
Theorem verify_after_issue_consumes
    (t0 t1 t2 : Z) (identifier code : string) (otpStore : Store) :
  t1 <= t0 + TTL ->
  let st0 := storeOTP t0 identifier code otpStore in
  let v1 := verifyOTP t1 identifier code st0 in
  let v2 := verifyOTP t2 identifier code (snd v1) in
  fst v1 = Success /\ snd v1 !! identifier = None /\
  fst v2 = NotFound /\ snd v2 = snd v1.
Proof.
  intros Hlive st0 v1 v2.
  assert (E1 : v1 = (Success, delete identifier st0)).
  { eapply verify_match; [apply storeOTP_lookup | cbn; lia .. | reflexivity]. }
  assert (E2 : v2 = (NotFound, snd v1)).
  { apply verify_absent. rewrite E1. cbn. apply lookup_delete_eq. }
  rewrite E2, E1. cbn. repeat split. apply lookup_delete_eq.
Qed.

Lemma verify_after_issue_consumes_witness :
  fst (verifyOTP 0 "a@x.com" "482913" (storeOTP 0 "a@x.com" "482913" ∅)) = Success /\
  fst (verifyOTP 9 "a@x.com" "482913"
         (snd (verifyOTP 0 "a@x.com" "482913" (storeOTP 0 "a@x.com" "482913" ∅))))
  = NotFound.
Proof.
  refine ((fun H => conj (proj1 H) (proj1 (proj2 (proj2 H))))
            (verify_after_issue_consumes 0 0 9 "a@x.com" "482913" ∅ _)).
  vm_compute. discriminate.
Defined.

(** ** Re-issuing *)

(** No entry of a list has a key that is not among its keys. *)
Lemma count_key_fresh (entries : list (string * OtpRecord)) (k : string) :
  k ∉ entries.*1 -> filter (fun e => e.1 = k) entries = [].
Proof.
  induction entries as [| [k' v'] entries IH]; intros Hfresh; [reflexivity |].
  rewrite fmap_cons in Hfresh. apply not_elem_of_cons in Hfresh as [Hne Hfresh].
  rewrite filter_cons_False by (cbn; intros ->; now apply Hne). now apply IH.
Qed.

(** In a list of entries with pairwise distinct keys, an entry that occurs
    is the only one with its key. *)
Lemma count_key_NoDup (entries : list (string * OtpRecord)) (k : string) (v : OtpRecord) :
  NoDup entries.*1 -> (k, v) ∈ entries ->
  length (filter (fun e => e.1 = k) entries) = 1%nat.
Proof.
  induction entries as [| [k' v'] entries IH]; intros Hnd Hin.
  - now apply elem_of_nil in Hin.
  - rewrite fmap_cons in Hnd. apply NoDup_cons in Hnd as [Hfresh Hnd].
    apply elem_of_cons in Hin as [Heq | Hin].
    + injection Heq as <- <-.
      rewrite filter_cons_True by reflexivity. cbn.
      now rewrite count_key_fresh.
    + assert (k' <> k) as Hne.
      { intros ->. apply Hfresh. apply list_elem_of_fmap. now exists (k, v). }
      rewrite filter_cons_False by (cbn; assumption). now apply IH.
Qed.

(** C7. For every [c1] and [c2], equal or not: after [issue(id, c1)] then
    [issue(id, c2)] the store holds exactly one entry for [id], with code
    [c2], [attempts = 0] and the expiry of the second issue; and when [c1]
    differs from [c2], a following verify of [c1] never returns [Success]. *)
Theorem reissue_replaces
    (t1 t2 t3 : Z) (identifier c1 c2 : string) (otpStore : Store) :
  let st2 := storeOTP t2 identifier c2 (storeOTP t1 identifier c1 otpStore) in
  st2 !! identifier = Some {| otp := c2; expiresAt := t2 + TTL; attempts := 0 |} /\
  length (filter (fun e => e.1 = identifier) (map_to_list st2)) = 1%nat /\
  (c1 <> c2 -> fst (verifyOTP t3 identifier c1 st2) <> Success).
Proof.
  intros st2.
  assert (Hget : st2 !! identifier
                 = Some {| otp := c2; expiresAt := t2 + TTL; attempts := 0 |})
    by apply storeOTP_lookup.
  split; [exact Hget |]. split.
  - eapply count_key_NoDup; [apply NoDup_fst_map_to_list |].
    apply elem_of_map_to_list. exact Hget.
  - intros Hne. unfold verifyOTP. rewrite Hget. cbn.
    destruct (t3 >? t2 + TTL); [discriminate |].
    destruct (String.eqb_spec c2 c1) as [-> |]; [contradiction | discriminate].
Qed.

Lemma reissue_replaces_witness :
  fst (verifyOTP 8 "a@x.com" "111111"
         (storeOTP 7 "a@x.com" "482913" (storeOTP 0 "a@x.com" "111111" ∅)))
  <> Success.
Proof.
  refine (proj2 (proj2 (reissue_replaces 0 7 8 "a@x.com" "111111" "482913" ∅)) _).
  discriminate.
Defined.

(** ** Frame of a mismatched verify *)

(** C10. A verify call that returns [Mismatch] changes nothing but the
    [attempts] field of the record of its identifier, which grows by one:
    the stored code and [expiresAt] are the same, and so is the record of
    every other identifier. *)
Theorem verify_mismatch_frame
    (now : Z) (identifier code : string) (otpStore : Store) :
  fst (verifyOTP now identifier code otpStore) = Mismatch ->
  exists before after,
    otpStore !! identifier = Some before /\
    snd (verifyOTP now identifier code otpStore) !! identifier = Some after /\
    otp after = otp before /\
    expiresAt after = expiresAt before /\
    attempts after = attempts before + 1 /\
    (forall other, other <> identifier ->
       snd (verifyOTP now identifier code otpStore) !! other = otpStore !! other).
Proof.
  unfold verifyOTP.
  destruct (otpStore !! identifier) as [storedData |] eqn:Hget; [| discriminate].
  destruct (now >? expiresAt storedData); [discriminate |].
  destruct (attempts storedData >=? 3); [discriminate |].
  destruct (negb (otp storedData =? code)%string); [| discriminate].
  intros _. exists storedData, (incrAttempts storedData). cbn.
  repeat split.
  - apply lookup_insert_eq.
  - intros other Hother. now apply lookup_insert_ne.
Qed.

Lemma verify_mismatch_frame_witness :
  exists before after,
    storeOTP 0 "a@x.com" "482913" ∅ !! "a@x.com" = Some before /\
    snd (verifyOTP 1 "a@x.com" "111111" (storeOTP 0 "a@x.com" "482913" ∅)) !! "a@x.com"
    = Some after /\
    otp after = otp before /\
    expiresAt after = expiresAt before /\
    attempts after = attempts before + 1 /\
    (forall other, other <> "a@x.com" ->
       snd (verifyOTP 1 "a@x.com" "111111" (storeOTP 0 "a@x.com" "482913" ∅)) !! other
       = storeOTP 0 "a@x.com" "482913" ∅ !! other).
Proof.
  apply (verify_mismatch_frame 1 "a@x.com" "111111" (storeOTP 0 "a@x.com" "482913" ∅)).
  vm_compute. reflexivity.
Defined.

(** ** The clean-up loop *)

(** What one round of the loop body does to a lookup. *)
Lemma sweepLoop_lookup_Some
    (now : Z) (entries : list (string * OtpRecord)) (st : Store)
    (k : string) (r : OtpRecord) :
  sweepLoop now entries st !! k = Some r <->
  st !! k = Some r /\ forall r', (k, r') ∈ entries -> ~ now > expiresAt r'.
Proof.
  revert st. induction entries as [| [k' v'] entries IH]; intros st.
  - cbn. split; [intros H; split; [exact H |] | tauto].
    intros r' Hin. now apply elem_of_nil in Hin.
  - change (sweepLoop now ((k', v') :: entries) st)
      with (sweepLoop now entries
              (if now >? expiresAt v' then delete k' st else st)).
    rewrite IH. destruct (Z.gtb_spec now (expiresAt v')) as [Hexp | Hlive].
    + rewrite lookup_delete_Some. split.
      * intros [[Hne Hget] Hrest]. split; [exact Hget |].
        intros r' [Heq | Hin]%elem_of_cons; [congruence | now apply Hrest].
      * intros [Hget Hall]. split; [split; [| exact Hget] |].
        -- intros ->. apply (Hall v'); [left | lia].
        -- intros r' Hin. apply Hall. now right.
    + split.
      * intros [Hget Hrest]. split; [exact Hget |].
        intros r' [Heq | Hin]%elem_of_cons; [| now apply Hrest].
        injection Heq as -> ->. lia.
      * intros [Hget Hall]. split; [exact Hget |].
        intros r' Hin. apply Hall. now right.
Qed.

(** The loop over the entries of the store itself keeps exactly the records
    that are not expired. *)
Lemma sweepExpired_lookup_Some (now : Z) (st : Store) (k : string) (r : OtpRecord) :
  sweepExpired now st !! k = Some r <-> st !! k = Some r /\ ~ expiresAt r < now.
Proof.
  unfold sweepExpired. rewrite sweepLoop_lookup_Some. split.
  - intros [Hget Hall]. split; [exact Hget |].
    specialize (Hall r). rewrite elem_of_map_to_list in Hall.
    specialize (Hall Hget). lia.
  - intros [Hget Hlive]. split; [exact Hget |].
    intros r' Hin. apply elem_of_map_to_list in Hin.
    assert (r' = r) as -> by congruence. lia.
Qed.

(** The order in which the iterator yields the entries (the insertion order
    of the [Map]) does not matter. *)
Lemma sweepLoop_any_order (now : Z) (entries : list (string * OtpRecord)) (st : Store) :
  entries ≡ₚ map_to_list st -> sweepLoop now entries st = sweepExpired now st.
Proof.
  intros Hperm. apply map_eq. intros k. apply option_eq. intros r.
  unfold sweepExpired. rewrite !sweepLoop_lookup_Some.
  split; intros [Hget Hall]; (split; [exact Hget |]); intros r' Hin; apply Hall.
  - now rewrite Hperm.
  - now rewrite <- Hperm.
Qed.

Lemma sweepExpired_idempotent (now : Z) (st : Store) :
  sweepExpired now (sweepExpired now st) = sweepExpired now st.
Proof.
  apply map_eq. intros k. apply option_eq. intros r.
  rewrite !sweepExpired_lookup_Some. tauto.
Qed.

(** C8. The sweep at [now] removes exactly the records with
    [expiresAt < now]: each of them is gone, every other record is kept as it
    is, and no identifier appears; a second sweep at the same [now] leaves
    the store of the first unchanged, so it removes no record. *)
Theorem sweepExpired_spec (now : Z) (st : Store) :
  (forall identifier data, st !! identifier = Some data ->
     expiresAt data < now -> sweepExpired now st !! identifier = None) /\
  (forall identifier data, st !! identifier = Some data ->
     ~ expiresAt data < now -> sweepExpired now st !! identifier = Some data) /\
  (forall identifier, st !! identifier = None ->
     sweepExpired now st !! identifier = None) /\
  sweepExpired now (sweepExpired now st) = sweepExpired now st /\
  (size (sweepExpired now st) - size (sweepExpired now (sweepExpired now st)) = 0)%nat.
Proof.
  repeat split.
  - intros identifier data Hget Hexp. apply eq_None_not_Some. intros [r Hr].
    apply sweepExpired_lookup_Some in Hr as [Hget' Hlive].
    assert (r = data) as -> by congruence. contradiction.
  - intros identifier data Hget Hlive. now apply sweepExpired_lookup_Some.
  - intros identifier Hget. apply eq_None_not_Some. intros [r Hr].
    apply sweepExpired_lookup_Some in Hr as [Hget' _]. congruence.
  - apply sweepExpired_idempotent.
  - rewrite sweepExpired_idempotent. apply Nat.sub_diag.
Qed.

(** ** The bound on [attempts] *)

Lemma step_attemptsBounded (o : Op) (st : Store) :
  attemptsBounded st -> attemptsBounded (step o st).
Proof.
  intros Hinv. destruct o as [now identifier code | now identifier code | now]; cbn.
  - intros k data. unfold storeOTP.
    rewrite lookup_insert_Some. intros [[_ <-] | [_ Hget]]; [cbn; lia | eauto].
  - unfold verifyOTP.
    destruct (st !! identifier) as [storedData |] eqn:Hget; [| exact Hinv].
    destruct (now >? expiresAt storedData);
      [cbn; intros k data [_ H]%lookup_delete_Some; eauto |].
    destruct (Z.geb_spec (attempts storedData) 3) as [Hcap | Hbelow];
      [cbn; intros k data [_ H]%lookup_delete_Some; eauto |].
    destruct (negb (otp storedData =? code)%string);
      [| cbn; intros k data [_ H]%lookup_delete_Some; eauto].
    cbn. intros k data. rewrite lookup_insert_Some.
    intros [[_ <-] | [_ H]]; [| eauto].
    cbn. specialize (Hinv identifier storedData Hget). lia.
  - intros k data [H _]%sweepExpired_lookup_Some. eauto.
Qed.

Lemma foldl_step_attemptsBounded (ops : list Op) (st : Store) :
  attemptsBounded st -> attemptsBounded (foldl (fun st o => step o st) st ops).
Proof.
  revert st. induction ops as [| o ops IH]; intros st Hinv; [exact Hinv |].
  cbn. apply IH. now apply step_attemptsBounded.
Qed.

(** C9. Every record of a store reached from the empty store by any
    sequence of issue, verify and sweep operations, at any times, has
    [0 <= attempts <= 3]. *)
Theorem attempts_invariant (ops : list Op) (identifier : string) (data : OtpRecord) :
  run ops !! identifier = Some data -> 0 <= attempts data <= 3.
Proof.
  revert identifier data. change (attemptsBounded (run ops)).
  apply foldl_step_attemptsBounded. intros k data Hget.
  now rewrite lookup_empty in Hget.
Qed.

Lemma attempts_invariant_witness :
  0 <= attempts {| otp := "482913"; expiresAt := 600000; attempts := 3 |} <= 3.
Proof.
  apply (attempts_invariant
           [Issue 0 "a@x.com" "482913"; Verify 1 "a@x.com" "111111";
            Verify 2 "a@x.com" "222222"; Verify 3 "a@x.com" "333333"]
           "a@x.com").
  vm_compute. reflexivity.
Defined.

(** ** The code generator *)

Lemma digits2_pos_bounds (p : positive) :
  2 ^ (Z.pos (digits2_pos p) - 1) <= Z.pos p < 2 ^ Z.pos (digits2_pos p).
Proof.
  induction p as [p IH | p IH |]; cbn [digits2_pos].
  - rewrite Pos2Z.inj_succ.
    replace (Z.succ (Z.pos (digits2_pos p)) - 1) with (Z.succ (Z.pos (digits2_pos p) - 1)) by lia.
    rewrite !Z.pow_succ_r by lia. lia.
  - rewrite Pos2Z.inj_succ.
    replace (Z.succ (Z.pos (digits2_pos p)) - 1) with (Z.succ (Z.pos (digits2_pos p) - 1)) by lia.
    rewrite !Z.pow_succ_r by lia. lia.
  - cbn. lia.
Qed.

(** Number of binary digits against a power of two. *)
Lemma Zdigits2_le (x k : Z) : 0 <= k -> 0 <= x < 2 ^ k -> 0 <= Zdigits2 x <= k.
Proof.
  intros Hk [H0 Hx]. destruct x as [| p | p]; cbn [Zdigits2]; [lia | | lia].
  pose proof (digits2_pos_bounds p) as [Hlo _].
  split; [lia |].
  destruct (Z_le_gt_dec (Z.pos (digits2_pos p)) k) as [| Hgt]; [assumption |].
  assert (2 ^ k <= 2 ^ (Z.pos (digits2_pos p) - 1)) by (apply Z.pow_le_mono_r; lia).
  lia.
Qed.

Lemma Zdigits2_ge (x k : Z) : 0 <= k -> 2 ^ k <= x -> k + 1 <= Zdigits2 x.
Proof.
  intros Hk Hx. assert (0 < 2 ^ k) by (apply Z.pow_pos_nonneg; lia).
  destruct x as [| p | p]; cbn [Zdigits2]; [lia | | lia].
  pose proof (digits2_pos_bounds p) as [_ Hhi].
  destruct (Z_le_gt_dec (k + 1) (Z.pos (digits2_pos p))) as [| Hgt]; [assumption |].
  assert (2 ^ Z.pos (digits2_pos p) <= 2 ^ k) by (apply Z.pow_le_mono_r; lia).
  lia.
Qed.

Lemma shr_1_shrInv (X k : Z) (mrs : shr_record) :
  0 <= X -> 0 <= k -> shrInv X k mrs -> shrInv X (k + 1) (shr_1 mrs).
Proof.
  intros HX Hk [Hm Hr].
  assert (Hq : 0 < 2 ^ k) by (apply Z.pow_pos_nonneg; lia).
  assert (Hpow : 2 ^ (k + 1) = 2 ^ k * 2) by (rewrite Z.pow_add_r by lia; reflexivity).
  assert (Hdiv : X / 2 ^ (k + 1) = X / 2 ^ k / 2)
    by (rewrite Hpow, Z.div_div by lia; reflexivity).
  assert (Hmod : X mod 2 ^ (k + 1) = X mod 2 ^ k + 2 ^ k * ((X / 2 ^ k) mod 2))
    by (rewrite Hpow; apply Z.rem_mul_r; lia).
  assert (Hrem : 0 <= X mod 2 ^ k) by (apply Z.mod_pos_bound; lia).
  assert (Hnn : 0 <= X / 2 ^ k) by (apply Z.div_pos; lia).
  destruct mrs as [m r s]. cbn [shr_m shr_r] in *. unfold shrInv. rewrite Hdiv, Hmod, Hpow, <- Hm.
  destruct m as [| [p | p |] | p]; cbn [shr_1 shr_m shr_r].
  - split; [reflexivity | discriminate].
  - rewrite Pos2Z.inj_xI. split; [apply Z.div_unique with (r := 1); lia |]. intros _.
    replace ((2 * Z.pos p + 1) mod 2) with 1
      by (apply Z.mod_unique with (q := Z.pos p); lia).
    lia.
  - rewrite Pos2Z.inj_xO. split; [apply Z.div_unique with (r := 0); lia | discriminate].
  - split; [reflexivity |]. intros _. change (1 mod 2) with 1. lia.
  - lia.
Qed.

Lemma iter_pos_shrInv (X : Z) (p : positive) :
  0 <= X -> forall k mrs, 0 <= k -> shrInv X k mrs ->
  shrInv X (k + Z.pos p) (SpecFloat.iter_pos shr_1 p mrs).
Proof.
  intros HX. induction p as [p IH | p IH |]; intros k mrs Hk Hinv; cbn [SpecFloat.iter_pos].
  - replace (k + Z.pos p~1) with (k + 1 + Z.pos p + Z.pos p) by lia.
    apply IH; [lia |]. apply IH; [lia |]. now apply shr_1_shrInv.
  - replace (k + Z.pos p~0) with (k + Z.pos p + Z.pos p) by lia.
    apply IH; [lia |]. now apply IH.
  - now apply shr_1_shrInv.
Qed.

(** [shr] from the exact record of [X]: [Z.max 0 n] steps. *)
Lemma shr_exact_spec (X ex n : Z) :
  0 <= X ->
  exists mrs,
    shr (Build_shr_record X false false) ex n = (mrs, ex + Z.max 0 n) /\
    shrInv X (Z.max 0 n) mrs.
Proof.
  intros HX.
  assert (Hinit : shrInv X 0 (Build_shr_record X false false)).
  { split; cbn; [now rewrite Z.div_1_r | discriminate]. }
  destruct n as [| p | p]; cbn [shr].
  - exists (Build_shr_record X false false). now rewrite Z.add_0_r.
  - exists (SpecFloat.iter_pos shr_1 p (Build_shr_record X false false)).
    split; [f_equal; lia |].
    replace (Z.max 0 (Z.pos p)) with (0 + Z.pos p) by lia.
    now apply iter_pos_shrInv.
  - exists (Build_shr_record X false false).
    replace (Z.max 0 (Z.neg p)) with 0 by lia. now rewrite Z.add_0_r.
Qed.

(** Rounding to nearest keeps the quotient or adds one, and adds one only
    with the round bit set. *)
Lemma round_nearest_even_cases (mrs : shr_record) :
  round_nearest_even (shr_m mrs) (loc_of_shr_record mrs) = shr_m mrs \/
  (round_nearest_even (shr_m mrs) (loc_of_shr_record mrs) = shr_m mrs + 1 /\
   shr_r mrs = true).
Proof.
  destruct mrs as [m [|] [|]]; cbn; try (left; reflexivity); try (right; now split).
  destruct (Z.even m); [left; reflexivity | right; now split].
Qed.

Lemma binary_round_aux_spec (X ex : Z) :
  0 <= X ->
  let k1 := Z.max 0 (fexp 53 1024 (Zdigits2 X + ex) - ex) in
  exists m1,
    (m1 = X / 2 ^ k1 \/ (m1 = X / 2 ^ k1 + 1 /\ 2 ^ k1 <= 2 * (X mod 2 ^ k1))) /\
    binary_round_aux 53 1024 false X ex loc_Exact = finishRound m1 (ex + k1).
Proof.
  intros HX k1. unfold binary_round_aux, shr_fexp.
  change (shr_record_of_loc X loc_Exact) with (Build_shr_record X false false).
  destruct (shr_exact_spec X ex (fexp 53 1024 (Zdigits2 X + ex) - ex) HX)
    as (mrs & -> & Hm & Hr).
  fold k1 in Hm, Hr |- *.
  set (m1 := round_nearest_even (shr_m mrs) (loc_of_shr_record mrs)).
  assert (H1 : m1 = X / 2 ^ k1 \/ (m1 = X / 2 ^ k1 + 1 /\ 2 ^ k1 <= 2 * (X mod 2 ^ k1))).
  { destruct (round_nearest_even_cases mrs) as [E | [E Hbit]]; fold m1 in E.
    - left. congruence.
    - right. split; [congruence | auto]. }
  assert (Hm1 : 0 <= m1).
  { assert (0 <= X / 2 ^ k1) by (apply Z.div_pos; [lia | apply Z.pow_pos_nonneg; lia]).
    destruct H1 as [-> | [-> _]]; lia. }
  exists m1. split; [exact H1 |].
  change (shr_record_of_loc m1 loc_Exact) with (Build_shr_record m1 false false).
  destruct (shr_exact_spec m1 (ex + k1) (fexp 53 1024 (Zdigits2 m1 + (ex + k1)) - (ex + k1)) Hm1)
    as (mrs2 & -> & Hm2 & _).
  unfold finishRound. cbv zeta. rewrite Hm2. reflexivity.
Qed.

Lemma fexp_binary64 (d : Z) : fexp 53 1024 d = Z.max (d - 53) (-1074).
Proof. reflexivity. Qed.

(** Flooring a value that lies between two points of a coarser grid. *)
Lemma div_between (x P Q lo hi : Z) :
  0 < P -> lo * (Q * P) <= x <= hi * (Q * P) -> lo * Q <= x / P <= hi * Q.
Proof.
  intros HP [Hlo Hhi]. split.
  - apply Z.div_le_lower_bound; [assumption | lia].
  - apply Z.div_le_upper_bound; [assumption | lia].
Qed.

(** Rounding up stays below a point of the coarser grid. *)
Lemma div_succ_below (x P Q hi : Z) :
  0 < P -> x <= hi * (Q * P) -> 0 < x mod P -> x / P + 1 <= hi * Q.
Proof.
  intros HP Hhi Hrem.
  pose proof (Z.div_mod x P ltac:(lia)) as Hx.
  destruct (Z_lt_le_dec (x / P) (hi * Q)) as [| Hge]; [lia |].
  assert (P * (hi * Q) <= P * (x / P)) by (apply Z.mul_le_mono_nonneg_l; lia).
  lia.
Qed.

(** The shift chosen for a value below [hi * 2 ^ E] with [hi < 2 ^ 53]
    stays on or below the grid of exponent [E]. *)
Lemma shift_within (Y e E hi : Z) :
  e <= E -> -1074 <= E -> hi < 2 ^ 53 -> 0 <= Y <= hi * 2 ^ (E - e) ->
  let k := Z.max 0 (fexp 53 1024 (Zdigits2 Y + e) - e) in
  0 <= k /\ e + k <= E.
Proof.
  intros He HE Hhi [HY0 HY] k.
  assert (HP : 0 < 2 ^ (E - e)) by (apply Z.pow_pos_nonneg; lia).
  assert (Hlt : Y < 2 ^ (53 + (E - e))).
  { rewrite Z.pow_add_r by lia.
    apply Z.le_lt_trans with (1 := HY). now apply Z.mul_lt_mono_pos_r. }
  pose proof (Zdigits2_le Y (53 + (E - e)) ltac:(lia) (conj HY0 Hlt)) as Hd.
  subst k. rewrite fexp_binary64. lia.
Qed.

(** Rounding a value that lies between two points [lo] and [hi] of the grid
    of exponent [E] gives a value between them. *)
Lemma binary_round_aux_between (X ex E lo hi : Z) :
  0 <= X -> ex <= E -> -1074 <= E <= 971 -> hi < 2 ^ 53 ->
  lo * 2 ^ (E - ex) <= X <= hi * 2 ^ (E - ex) ->
  exists mz e,
    ex <= e <= E /\ lo * 2 ^ (E - e) <= mz <= hi * 2 ^ (E - e) /\
    binary_round_aux 53 1024 false X ex loc_Exact
    = match mz with
      | Z0 => S754_zero false
      | Z.pos m => S754_finite false m e
      | Z.neg _ => S754_nan
      end.
Proof.
  intros HX Hex HE Hhi HXb.
  destruct (binary_round_aux_spec X ex HX) as (m1 & Hm1 & ->).
  destruct (shift_within X ex E hi Hex (proj1 HE) Hhi (conj HX (proj2 HXb))) as [Hk1 He1].
  set (k1 := Z.max 0 (fexp 53 1024 (Zdigits2 X + ex) - ex)) in *.
  set (e1 := ex + k1) in *.
  assert (HP1 : 0 < 2 ^ k1) by (apply Z.pow_pos_nonneg; lia).
  assert (Hsplit1 : 2 ^ (E - ex) = 2 ^ (E - e1) * 2 ^ k1).
  { rewrite <- Z.pow_add_r by lia. f_equal. lia. }
  rewrite Hsplit1 in HXb.
  assert (Hb1 : lo * 2 ^ (E - e1) <= m1 <= hi * 2 ^ (E - e1)).
  { pose proof (div_between X (2 ^ k1) (2 ^ (E - e1)) lo hi HP1 HXb) as Hq.
    destruct Hm1 as [-> | [-> Hhalf]]; [exact Hq |]. split; [lia |].
    apply div_succ_below; [assumption | apply HXb | lia]. }
  assert (Hm1' : 0 <= m1).
  { assert (0 <= X / 2 ^ k1) by (apply Z.div_pos; lia).
    destruct Hm1 as [-> | [-> _]]; lia. }
  destruct (shift_within m1 e1 E hi He1 (proj1 HE) Hhi (conj Hm1' (proj2 Hb1))) as [Hk2 He2].
  unfold finishRound.
  set (k2 := Z.max 0 (fexp 53 1024 (Zdigits2 m1 + e1) - e1)) in *. cbv zeta.
  assert (HP2 : 0 < 2 ^ k2) by (apply Z.pow_pos_nonneg; lia).
  assert (Hsplit2 : 2 ^ (E - e1) = 2 ^ (E - (e1 + k2)) * 2 ^ k2).
  { rewrite <- Z.pow_add_r by lia. f_equal. lia. }
  rewrite Hsplit2 in Hb1.
  pose proof (div_between m1 (2 ^ k2) (2 ^ (E - (e1 + k2))) lo hi HP2 Hb1) as Hq2.
  exists (m1 / 2 ^ k2), (e1 + k2). split; [lia |]. split; [exact Hq2 |].
  destruct (m1 / 2 ^ k2); [reflexivity | | reflexivity].
  destruct (Z.leb_spec (e1 + k2) (1024 - 53)); [reflexivity | lia].
Qed.

(** A value strictly between the grid point [hi] and the midpoint above it
    rounds down to [hi]. *)
Lemma binary_round_aux_nearest (X ex E hi : Z) :
  ex <= E -> -1074 <= E <= 971 -> 2 ^ 52 <= hi < 2 ^ 53 ->
  hi * 2 ^ (E - ex) < X -> 2 * X < (2 * hi + 1) * 2 ^ (E - ex) ->
  binary_round_aux 53 1024 false X ex loc_Exact = S754_finite false (Z.to_pos hi) E.
Proof.
  intros Hex HE [Hhi52 Hhi53] Hlo Hmid.
  assert (HP : 0 < 2 ^ (E - ex)) by (apply Z.pow_pos_nonneg; lia).
  assert (Hpos52 : 0 < 2 ^ 52) by reflexivity.
  assert (HX : 0 <= X) by nia.
  destruct (binary_round_aux_spec X ex HX) as (m1 & Hm1 & ->).
  assert (Hd : Zdigits2 X = 53 + (E - ex)).
  { apply Z.le_antisymm.
    - apply Zdigits2_le; [lia |]. split; [assumption |].
      rewrite Z.pow_add_r by lia. nia.
    - replace (53 + (E - ex)) with (52 + (E - ex) + 1) by lia.
      apply Zdigits2_ge; [lia |]. rewrite Z.pow_add_r by lia. nia. }
  rewrite Hd, fexp_binary64 in Hm1 |- *.
  replace (Z.max 0 (Z.max (53 + (E - ex) + ex - 53) (-1074) - ex)) with (E - ex) in * by lia.
  assert (Hq : X / 2 ^ (E - ex) = hi).
  { symmetry. apply Z.div_unique with (r := X - hi * 2 ^ (E - ex)); lia. }
  assert (Hr : X mod 2 ^ (E - ex) = X - hi * 2 ^ (E - ex)).
  { symmetry. apply Z.mod_unique with (q := hi); lia. }
  rewrite Hq, Hr in Hm1.
  assert (m1 = hi) as -> by (destruct Hm1 as [-> | [_ Hhalf]]; lia).
  replace (ex + (E - ex)) with E by lia.
  unfold finishRound.
  assert (Hdh : Zdigits2 hi = 53).
  { apply Z.le_antisymm.
    - apply Zdigits2_le; lia.
    - change 53 with (52 + 1). apply Zdigits2_ge; lia. }
  rewrite Hdh, fexp_binary64.
  replace (Z.max 0 (Z.max (53 + E - 53) (-1074) - E)) with 0 by lia.
  cbv zeta. rewrite Z.pow_0_r, Z.div_1_r, Z.add_0_r.
  destruct hi as [| h | h]; [lia | | lia]. cbn [Z.to_pos].
  destruct (Z.leb_spec E (1024 - 53)); [reflexivity | lia].
Qed.

(** [900000] and [100000] as doubles. *)
Lemma f64ofZ_900000 : f64ofZ 900000 = S754_finite false 7730941132800000 (-33).
Proof. reflexivity. Qed.

Lemma f64ofZ_100000 : f64ofZ 100000 = S754_finite false 6871947673600000 (-36).
Proof. reflexivity. Qed.

(** The product [random * 900000] for a double [m * 2 ^ e] below one: zero
    or a positive double on the grid of exponent [-33] or finer, at most
    [900000 - 2 ^ -33]. *)
Lemma product_bounds (m : positive) (e : Z) :
  -1074 <= e <= -53 -> Z.pos m < 2 ^ 53 ->
  exists mz ep,
    e - 33 <= ep <= -33 /\ 0 <= mz <= 7730941132799999 * 2 ^ (-33 - ep) /\
    f64mul (S754_finite false m e) (f64ofZ 900000)
    = match mz with
      | Z0 => S754_zero false
      | Z.pos mp => S754_finite false mp ep
      | Z.neg _ => S754_nan
      end.
Proof.
  intros He Hm. rewrite f64ofZ_900000. unfold f64mul. cbn [SFmul xorb].
  rewrite Pos2Z.inj_mul.
  set (X := Z.pos m * 7730941132800000).
  assert (HP : 0 < 2 ^ (-33 - (e + -33))) by (apply Z.pow_pos_nonneg; lia).
  assert (H53 : 2 ^ 53 <= 2 ^ (-33 - (e + -33))) by (apply Z.pow_le_mono_r; lia).
  change (2 ^ 53) with 9007199254740992 in *.
  destruct (Z_le_gt_dec X (7730941132799999 * 2 ^ (-33 - (e + -33)))) as [Hle | Hgt].
  - destruct (binary_round_aux_between X (e + -33) (-33) 0 7730941132799999)
      as (mz & ep & Hep & Hmz & ->); try lia.
    exists mz, ep. repeat split; lia.
  - exists 7730941132799999, (-33). split; [lia |]. split; [cbn; lia |].
    apply (binary_round_aux_nearest X (e + -33) (-33) 7730941132799999); lia.
Qed.

Lemma Pos_iter_xO (mx d : positive) : Z.pos (Pos.iter xO mx d) = Z.pos mx * 2 ^ Z.pos d.
Proof.
  induction d as [| d IH] using Pos.peano_ind.
  - cbn [Pos.iter]. rewrite Pos2Z.inj_xO. change (2 ^ 1) with 2. lia.
  - rewrite Pos.iter_succ, Pos2Z.inj_xO, IH, Pos2Z.inj_succ, Z.pow_succ_r by lia. lia.
Qed.

(** Aligning a mantissa to an exponent keeps the value. *)
Lemma shl_align_spec (mx : positive) (ex ex' : Z) :
  exists mz ez,
    shl_align mx ex ex' = (mz, ez) /\ ez <= ex /\ (ex' <= ex -> ez = ex') /\
    Z.pos mz = Z.pos mx * 2 ^ (ex - ez).
Proof.
  unfold shl_align. destruct (ex' - ex) as [| d | d] eqn:Hd.
  - exists mx, ex. rewrite Z.sub_diag. cbn. repeat split; lia.
  - exists mx, ex. rewrite Z.sub_diag. cbn. repeat split; lia.
  - exists (Pos.iter xO mx d), ex'. repeat split; try lia.
    rewrite Pos_iter_xO. f_equal. f_equal. lia.
Qed.

Lemma binary_round_between (S : positive) (ex E lo hi : Z) :
  ex <= E -> -1074 <= E <= 971 -> hi < 2 ^ 53 ->
  lo * 2 ^ (E - ex) <= Z.pos S <= hi * 2 ^ (E - ex) ->
  exists mz e,
    e <= E /\ lo * 2 ^ (E - e) <= mz <= hi * 2 ^ (E - e) /\
    binary_round 53 1024 false S ex
    = match mz with
      | Z0 => S754_zero false
      | Z.pos m => S754_finite false m e
      | Z.neg _ => S754_nan
      end.
Proof.
  intros Hex HE Hhi Hb. unfold binary_round.
  destruct (shl_align_spec S ex (fexp 53 1024 (Z.pos (digits2_pos S) + ex)))
    as (mz0 & ez0 & -> & Hez & _ & Hval).
  assert (HP : 0 < 2 ^ (ex - ez0)) by (apply Z.pow_pos_nonneg; lia).
  assert (Hsplit : 2 ^ (E - ez0) = 2 ^ (E - ex) * 2 ^ (ex - ez0)).
  { rewrite <- Z.pow_add_r by lia. f_equal. lia. }
  destruct (binary_round_aux_between (Z.pos mz0) ez0 E lo hi)
    as (mz & e & He & Hmz & ->); try lia.
  - rewrite Hsplit, Hval. nia.
  - exists mz, e. repeat split; lia.
Qed.

(** The sum [100000 + p] for a product [p] as in [product_bounds]: a
    positive double on the grid of exponent [-33] or finer, between
    [100000] and [1000000 - 2 ^ -33]. *)
Lemma sum_bounds (mz ep : Z) :
  ep <= -33 -> 0 <= mz <= 7730941132799999 * 2 ^ (-33 - ep) ->
  exists m e,
    e <= -33 /\
    858993459200000 * 2 ^ (-33 - e) <= Z.pos m <= 8589934591999999 * 2 ^ (-33 - e) /\
    f64add (f64ofZ 100000)
      match mz with
      | Z0 => S754_zero false
      | Z.pos mp => S754_finite false mp ep
      | Z.neg _ => S754_nan
      end
    = S754_finite false m e.
Proof.
  intros Hep Hmz. rewrite f64ofZ_100000. destruct mz as [| mp | mp]; [| | lia].
  - exists 6871947673600000%positive, (-36). split; [lia |]. split; [cbn; lia | reflexivity].
  - unfold f64add. cbn [SFadd cond_Zopp].
    set (ez := Z.min (-36) ep).
    destruct (shl_align_spec 6871947673600000 (-36) ez) as (a & ea & -> & _ & Hea & Ha).
    destruct (shl_align_spec mp ep ez) as (b & eb & -> & _ & Heb & Hb).
    cbn [fst]. specialize (Hea ltac:(lia)). specialize (Heb ltac:(lia)). subst ea eb.
    change (Z.pos a + Z.pos b) with (Z.pos (a + b)). cbn [binary_normalize].
    assert (HU : 0 < 2 ^ (-36 - ez)) by (apply Z.pow_pos_nonneg; lia).
    assert (HV : 0 < 2 ^ (ep - ez)) by (apply Z.pow_pos_nonneg; lia).
    assert (HW : 0 < 2 ^ (-33 - ep)) by (apply Z.pow_pos_nonneg; lia).
    assert (HT1 : 2 ^ (-33 - ez) = 8 * 2 ^ (-36 - ez)).
    { change 8 with (2 ^ 3). rewrite <- Z.pow_add_r by lia. f_equal. lia. }
    assert (HT2 : 2 ^ (-33 - ez) = 2 ^ (-33 - ep) * 2 ^ (ep - ez)).
    { rewrite <- Z.pow_add_r by lia. f_equal. lia. }
    destruct (binary_round_between (a + b) ez (-33) 858993459200000 8589934591999999)
      as (mz & e & He & Hmz' & ->); try lia.
    + rewrite Pos2Z.inj_add, Ha, Hb. split; [nia |].
      assert (Z.pos mp * 2 ^ (ep - ez) <= 7730941132799999 * 2 ^ (-33 - ez)).
      { rewrite HT2. nia. }
      lia.
    + assert (HQ : 0 < 2 ^ (-33 - e)) by (apply Z.pow_pos_nonneg; lia).
      destruct mz as [| m | m]; [lia | | lia].
      exists m, e. repeat split; lia.
Qed.


Lemma f64ofZ_1 : f64ofZ 1 = S754_finite false 4503599627370496 (-52).
Proof. vm_compute. reflexivity. Qed.

(** The doubles that [Math.random()] can return. *)
Lemma isRandomValue_cases (r : spec_float) :
  isRandomValue r = true ->
  (exists s, r = S754_zero s) \/
  (exists m e, r = S754_finite false m e /\ -1074 <= e <= -53 /\ Z.pos m < 2 ^ 53).
Proof.
  unfold isRandomValue. rewrite f64ofZ_1. intros H.
  apply andb_prop in H as [H Hlt]. apply andb_prop in H as [Hvalid Hle].
  destruct r as [s | s | | s m e].
  - left. now exists s.
  - exfalso. destruct s; cbn in Hle, Hlt; congruence.
  - exfalso. cbn in Hle. congruence.
  - right. destruct s; [exfalso; cbn in Hle; congruence |].
    exists m, e. split; [reflexivity |]. clear Hle.
    assert (He : e < -52 \/ (e = -52 /\ Z.pos m < 2 ^ 52)).
    { clear Hvalid. unfold SFltb in Hlt. cbn [SFcompare] in Hlt.
      destruct (Z.compare_spec e (-52)) as [Heq | He | He];
        [right | left; exact He | discriminate Hlt].
      split; [exact Heq |].
      rewrite Pos.compare_cont_spec in Hlt. cbn [Pos.switch_Eq] in Hlt.
      destruct (Pos.compare_spec m 4503599627370496) as [Hc | Hc | Hc];
        try discriminate Hlt.
      apply Pos2Z.pos_lt_pos in Hc. exact Hc. }
    clear Hlt.
    cbn [valid_binary] in Hvalid. unfold bounded, canonical_mantissa in Hvalid.
    apply andb_prop in Hvalid as [Hcan _]. apply Z.eqb_eq in Hcan.
    rewrite fexp_binary64 in Hcan.
    pose proof (digits2_pos_bounds m) as [Hlo Hhi].
    set (d := Z.pos (digits2_pos m)) in *.
    destruct He as [He | [-> Hm]].
    + split; [lia |].
      assert (Hp : 2 ^ d <= 2 ^ 53) by (apply Z.pow_le_mono_r; lia).
      apply Z.lt_le_trans with (1 := Hhi). exact Hp.
    + exfalso. assert (Hd : d = 53) by lia. rewrite Hd in Hlo.
      apply Z.lt_irrefl with (x := Z.pos m).
      apply Z.lt_le_trans with (1 := Hm). exact Hlo.
Qed.

(** An integer of six decimal digits prints as these digits. *)
Lemma integerToString_six_digits (n : Z) :
  100000 <= n <= 999999 ->
  exists d5 d4 d3 d2 d1 d0,
    1 <= d5 <= 9 /\ 0 <= d4 <= 9 /\ 0 <= d3 <= 9 /\ 0 <= d2 <= 9 /\
    0 <= d1 <= 9 /\ 0 <= d0 <= 9 /\
    n = 100000 * d5 + 10000 * d4 + 1000 * d3 + 100 * d2 + 10 * d1 + d0 /\
    integerToString n
    = String (digitChar d5) (String (digitChar d4) (String (digitChar d3)
        (String (digitChar d2) (String (digitChar d1) (String (digitChar d0) EmptyString))))).
Proof.
  intros Hn. unfold integerToString.
  destruct (Z.ltb_spec n 0) as [| _]; [lia |].
  assert (Hlog : 16 <= Z.log2 n).
  { change 16 with (Z.log2 65536). apply Z.log2_le_mono. lia. }
  destruct (Z.to_nat (Z.log2 n)) as [| [| [| [| [| f]]]]] eqn:Hf; try lia.
  set (q1 := n / 10). set (q2 := q1 / 10). set (q3 := q2 / 10).
  set (q4 := q3 / 10). set (q5 := q4 / 10).
  exists (q5 mod 10), (q4 mod 10), (q3 mod 10), (q2 mod 10), (q1 mod 10), (n mod 10).
  assert (q5 / 10 = 0 /\ q5 <> 0 /\ q4 <> 0 /\ q3 <> 0 /\ q2 <> 0 /\ q1 <> 0) as
    (H6 & H5 & H4 & H3 & H2 & H1).
  { subst q1 q2 q3 q4 q5. Z.div_mod_to_equations. lia. }
  repeat split; try (subst q1 q2 q3 q4 q5; Z.div_mod_to_equations; lia).
  cbn [decimalDigits]. fold q1. fold q2. fold q3. fold q4. fold q5.
  rewrite H6.
  destruct (Z.eqb_spec q1 0); [contradiction |].
  destruct (Z.eqb_spec q2 0); [contradiction |].
  destruct (Z.eqb_spec q3 0); [contradiction |].
  destruct (Z.eqb_spec q4 0); [contradiction |].
  destruct (Z.eqb_spec q5 0); [contradiction |].
  reflexivity.
Qed.

(** The value of [generateOTP] is the decimal form of an integer between
    [100000] and [999999]. *)
Lemma generateOTP_integer (random : spec_float) :
  isRandomValue random = true ->
  exists n, 100000 <= n <= 999999 /\ generateOTP random = integerToString n.
Proof.
  intros Hr.
  assert (Hsum : exists m e,
             e <= -33 /\
             858993459200000 * 2 ^ (-33 - e) <= Z.pos m <= 8589934591999999 * 2 ^ (-33 - e) /\
             f64add (f64ofZ 100000) (f64mul random (f64ofZ 900000)) = S754_finite false m e).
  { destruct (isRandomValue_cases random Hr) as [[s ->] | (m & e & -> & He & Hm)].
    - exists 6871947673600000%positive, (-36). split; [lia |]. split; [cbn; lia |].
      destruct s; reflexivity.
    - destruct (product_bounds m e He Hm) as (mz & ep & Hep & Hmz & ->).
      apply sum_bounds; lia. }
  destruct Hsum as (m & e & He & Hm & Heq).
  exists (Z.shiftl (Z.pos m) e). split.
  - rewrite Z.shiftl_div_pow2 by lia.
    assert (HQ : 0 < 2 ^ (-33 - e)) by (apply Z.pow_pos_nonneg; lia).
    assert (HT : 2 ^ (- e) = 8589934592 * 2 ^ (-33 - e)).
    { change 8589934592 with (2 ^ 33). rewrite <- Z.pow_add_r by lia. f_equal. lia. }
    rewrite HT. split.
    + apply Z.div_le_lower_bound; lia.
    + assert (Z.pos m / (8589934592 * 2 ^ (-33 - e)) < 1000000); [| lia].
      apply Z.div_lt_upper_bound; lia.
  - unfold generateOTP. rewrite Heq. reflexivity.
Qed.

Lemma generateOTP_nonempty (random : spec_float) :
  isRandomValue random = true -> generateOTP random <> EmptyString.
Proof.
  intros Hr. destruct (generateOTP_integer random Hr) as (n & Hn & ->).
  destruct (integerToString_six_digits n Hn) as (d5 & d4 & d3 & d2 & d1 & d0 & H).
  destruct H as (_ & _ & _ & _ & _ & _ & _ & ->). discriminate.
Qed.

(** X1. For every double that [Math.random()] can return (at least 0, less
    than 1), [generateOTP] returns a string of exactly six decimal digits
    whose first digit is not zero: the digits of an integer between 100000
    and 999999. *)
Theorem generateOTP_six_digits (random : spec_float) :
  isRandomValue random = true ->
  exists n d5 d4 d3 d2 d1 d0,
    100000 <= n <= 999999 /\
    1 <= d5 <= 9 /\ 0 <= d4 <= 9 /\ 0 <= d3 <= 9 /\ 0 <= d2 <= 9 /\
    0 <= d1 <= 9 /\ 0 <= d0 <= 9 /\
    n = 100000 * d5 + 10000 * d4 + 1000 * d3 + 100 * d2 + 10 * d1 + d0 /\
    generateOTP random
    = String (digitChar d5) (String (digitChar d4) (String (digitChar d3)
        (String (digitChar d2) (String (digitChar d1) (String (digitChar d0) EmptyString))))) /\
    String.length (generateOTP random) = 6%nat.
Proof.
  intros Hr. destruct (generateOTP_integer random Hr) as (n & Hn & Hgen).
  destruct (integerToString_six_digits n Hn)
    as (d5 & d4 & d3 & d2 & d1 & d0 & H5 & H4 & H3 & H2 & H1 & H0 & Hdec & Hstr).
  exists n, d5, d4, d3, d2, d1, d0. rewrite Hgen, Hstr.
  repeat split; lia.
Qed.

Lemma generateOTP_six_digits_witness :
  String.length (generateOTP (S754_finite false 4503599627370496 (-53))) = 6%nat.
Proof.
  destruct (generateOTP_six_digits (S754_finite false 4503599627370496 (-53)))
    as (n & d5 & d4 & d3 & d2 & d1 & d0 & H); [vm_compute; reflexivity |].
  apply H.
Defined.

(** ** When a verification succeeds *)

Lemma verifyOTP_Success_inv (now : Z) (identifier code : string) (otpStore : Store) :
  success (fst (verifyOTP now identifier code otpStore)) = true ->
  exists storedData,
    otpStore !! identifier = Some storedData /\ now <= expiresAt storedData /\
    attempts storedData < 3 /\ otp storedData = code.
Proof.
  unfold verifyOTP.
  destruct (otpStore !! identifier) as [storedData |]; [| discriminate].
  destruct (Z.gtb_spec now (expiresAt storedData)); [discriminate |].
  destruct (Z.geb_spec (attempts storedData) 3); [discriminate |].
  destruct (String.eqb_spec (otp storedData) code); [| discriminate].
  intros _. exists storedData. repeat split; (assumption || lia).
Qed.

(** X2. [verifyOTP] reports success exactly when the identifier has a
    record that is not past [expiresAt], has fewer than three failed
    attempts and holds the submitted code; no other result carries
    [success = true]. *)
Theorem verifyOTP_success_iff (now : Z) (identifier code : string) (otpStore : Store) :
  (fst (verifyOTP now identifier code otpStore) = Success <->
   exists storedData,
     otpStore !! identifier = Some storedData /\ now <= expiresAt storedData /\
     attempts storedData < 3 /\ otp storedData = code) /\
  (success (fst (verifyOTP now identifier code otpStore)) = true <->
   fst (verifyOTP now identifier code otpStore) = Success).
Proof.
  assert (Hback : (exists storedData,
            otpStore !! identifier = Some storedData /\ now <= expiresAt storedData /\
            attempts storedData < 3 /\ otp storedData = code) ->
          fst (verifyOTP now identifier code otpStore) = Success).
  { intros (storedData & Hget & Hlive & Hbelow & Heq).
    now rewrite (verify_match now identifier code otpStore storedData). }
  split; split.
  - intros H. apply verifyOTP_Success_inv. now rewrite H.
  - exact Hback.
  - intros H. apply Hback. now apply verifyOTP_Success_inv.
  - intros H. now rewrite H.
Qed.

(** ** What a verification leaves alone *)

Lemma verifyOTP_lookup_ne (now : Z) (identifier code other : string) (otpStore : Store) :
  other <> identifier ->
  snd (verifyOTP now identifier code otpStore) !! other = otpStore !! other.
Proof.
  intros Hne. unfold verifyOTP.
  destruct (otpStore !! identifier) as [storedData |]; [| reflexivity].
  destruct (now >? expiresAt storedData); [cbn; now apply lookup_delete_ne |].
  destruct (attempts storedData >=? 3); [cbn; now apply lookup_delete_ne |].
  destruct (negb (otp storedData =? code)%string); cbn;
    [now apply lookup_insert_ne | now apply lookup_delete_ne].
Qed.

(** X3. Whatever its result, [verifyOTP] leaves the record of every other
    identifier as it is, creates no record for an identifier that had none,
    and never makes the store larger. *)
Theorem verifyOTP_frame (now : Z) (identifier code : string) (otpStore : Store) :
  (forall other, other <> identifier ->
     snd (verifyOTP now identifier code otpStore) !! other = otpStore !! other) /\
  (forall any, otpStore !! any = None ->
     snd (verifyOTP now identifier code otpStore) !! any = None) /\
  (size (snd (verifyOTP now identifier code otpStore)) <= size otpStore)%nat.
Proof.
  split; [intros other; apply verifyOTP_lookup_ne |]. split.
  - intros any Hnone. destruct (decide (any = identifier)) as [-> | Hne].
    + now rewrite verify_absent.
    + now rewrite verifyOTP_lookup_ne.
  - unfold verifyOTP.
    destruct (otpStore !! identifier) as [storedData |] eqn:Hget; [| reflexivity].
    assert (Hdel : (size (delete identifier otpStore) <= size otpStore)%nat).
    { rewrite map_size_delete, Hget. cbn. lia. }
    destruct (now >? expiresAt storedData); [exact Hdel |].
    destruct (attempts storedData >=? 3); [exact Hdel |].
    destruct (negb (otp storedData =? code)%string); [| exact Hdel].
    cbn. rewrite map_size_insert, Hget. cbn. lia.
Qed.

(** ** Expiry *)

(** X4. The expiry instant is inclusive: a code issued at [t0] is still
    accepted at [t0 + TTL] and is rejected as expired one millisecond
    later; likewise the sweep at [t0 + TTL] keeps the record and the sweep
    one millisecond later removes it. *)
Theorem expiry_boundary (t0 : Z) (identifier code : string) (otpStore : Store) :
  let st0 := storeOTP t0 identifier code otpStore in
  fst (verifyOTP (t0 + TTL) identifier code st0) = Success /\
  fst (verifyOTP (t0 + TTL + 1) identifier code st0) = Expired /\
  sweepExpired (t0 + TTL) st0 !! identifier
  = Some {| otp := code; expiresAt := t0 + TTL; attempts := 0 |} /\
  sweepExpired (t0 + TTL + 1) st0 !! identifier = None.
Proof.
  intros st0.
  assert (Hget : st0 !! identifier
                 = Some {| otp := code; expiresAt := t0 + TTL; attempts := 0 |})
    by apply storeOTP_lookup.
  repeat split.
  - erewrite verify_match; [reflexivity | exact Hget | cbn; lia .. | reflexivity].
  - erewrite verify_expired; [reflexivity | exact Hget | cbn; lia].
  - apply sweepExpired_lookup_Some. split; [exact Hget | cbn; lia].
  - apply eq_None_not_Some. intros [r Hr].
    apply sweepExpired_lookup_Some in Hr as [Hget' Hlive].
    rewrite Hget in Hget'. injection Hget' as <-. cbn in Hlive. lia.
Qed.

(** X5. After [expiresAt] even the issued code is rejected: the verify call
    returns [Expired] and deletes the record, so the next verify call for
    the identifier returns [NotFound]. *)
Theorem verify_expired_consumes
    (t0 t1 t2 : Z) (identifier code : string) (otpStore : Store) :
  t1 > t0 + TTL ->
  let st0 := storeOTP t0 identifier code otpStore in
  let v1 := verifyOTP t1 identifier code st0 in
  let v2 := verifyOTP t2 identifier code (snd v1) in
  fst v1 = Expired /\ snd v1 !! identifier = None /\ fst v2 = NotFound.
Proof.
  intros Hlate st0 v1 v2.
  assert (E1 : v1 = (Expired, delete identifier st0)).
  { eapply verify_expired; [apply storeOTP_lookup | cbn; lia]. }
  assert (E2 : v2 = (NotFound, snd v1)).
  { apply verify_absent. rewrite E1. cbn. apply lookup_delete_eq. }
  rewrite E2, E1. cbn. repeat split. apply lookup_delete_eq.
Qed.

Lemma verify_expired_consumes_witness :
  fst (verifyOTP 600001 "a@x.com" "482913" (storeOTP 0 "a@x.com" "482913" ∅)) = Expired.
Proof.
  refine (proj1 (verify_expired_consumes 0 600001 0 "a@x.com" "482913" ∅ _)).
  vm_compute. reflexivity.
Defined.

(** ** The guess budget of an issued code *)

(** Once the record is gone every further call returns [NotFound]. *)
Lemma verifyEach_absent (identifier : string) (calls : list (Z * string)) (st : Store) :
  st !! identifier = None ->
  Forall (fun result => result = NotFound) (verifyEach identifier calls st).1 /\
  (verifyEach identifier calls st).2 = st.
Proof.
  intros Hnone. induction calls as [| [now code] rest [IHres IHst]]; cbn.
  - split; [constructor | reflexivity].
  - rewrite (verify_absent now identifier code st Hnone).
    destruct (verifyEach identifier rest st) as [results final]. cbn in *.
    split; [now constructor | assumption].
Qed.

Lemma verifyEach_absent_mismatches
    (identifier : string) (calls : list (Z * string)) (st : Store) :
  st !! identifier = None ->
  filter (fun result => result = Mismatch) (verifyEach identifier calls st).1 = [].
Proof.
  intros Hnone. destruct (verifyEach_absent identifier calls st Hnone) as [Hall _].
  induction Hall as [| x l Hx _ IHl]; [reflexivity |].
  rewrite filter_cons_False by (rewrite Hx; discriminate). exact IHl.
Qed.

(** With a record that has [b] failed attempts left before the cap, at most
    [b] further calls return [Mismatch]. *)
Lemma verifyEach_mismatches (identifier : string) (calls : list (Z * string)) :
  forall (st : Store) (storedData : OtpRecord) (b : nat),
    st !! identifier = Some storedData ->
    3 <= attempts storedData + Z.of_nat b ->
    (length (filter (fun result => result = Mismatch) (verifyEach identifier calls st).1)
     <= b)%nat.
Proof.
  induction calls as [| [now code] rest IH]; intros st storedData b Hget Hb; cbn [verifyEach].
  - cbn. lia.
  - pose proof (verifyEach_absent_mismatches identifier rest (delete identifier st)
                  (lookup_delete_eq st identifier)) as Hgone.
    unfold verifyOTP. rewrite Hget.
    destruct (now >? expiresAt storedData).
    { destruct (verifyEach identifier rest (delete identifier st)) as [results final].
      cbn [fst snd] in *. rewrite filter_cons_False by discriminate. rewrite Hgone. cbn. lia. }
    destruct (Z.geb_spec (attempts storedData) 3) as [Hcap | Hbelow].
    { destruct (verifyEach identifier rest (delete identifier st)) as [results final].
      cbn [fst snd] in *. rewrite filter_cons_False by discriminate. rewrite Hgone. cbn. lia. }
    destruct (negb (otp storedData =? code)%string).
    + destruct b as [| b]; [lia |].
      specialize (IH (<[identifier := incrAttempts storedData]> st)
                     (incrAttempts storedData) b (lookup_insert_eq _ _ _)).
      cbn [incrAttempts attempts] in IH. specialize (IH ltac:(lia)).
      destruct (verifyEach identifier rest (<[identifier := incrAttempts storedData]> st))
        as [results final].
      cbn [fst snd] in *. rewrite filter_cons_True by reflexivity. cbn [length]. lia.
    + destruct (verifyEach identifier rest (delete identifier st)) as [results final].
      cbn [fst snd] in *. rewrite filter_cons_False by discriminate. rewrite Hgone. cbn. lia.
Qed.

(** With a record that has [b] failed attempts left before the cap, no call
    succeeds when the first [b] submitted codes are wrong. *)
Lemma verifyEach_no_success (identifier code : string) (calls : list (Z * string)) :
  forall (st : Store) (storedData : OtpRecord) (b : nat),
    st !! identifier = Some storedData -> otp storedData = code ->
    3 <= attempts storedData + Z.of_nat b ->
    Forall (fun call => call.2 <> code) (take b calls) ->
    Success ∉ (verifyEach identifier calls st).1.
Proof.
  induction calls as [| [now guess] rest IH];
    intros st storedData b Hget Hcode Hb Hwrong; cbn.
  - apply not_elem_of_nil.
  - assert (Hgone : forall result, result <> Success ->
             Success ∉ result :: (verifyEach identifier rest (delete identifier st)).1).
    { intros result Hres.
      destruct (verifyEach_absent identifier rest (delete identifier st)
                  (lookup_delete_eq st identifier)) as [Hall _].
      apply not_elem_of_cons. split; [congruence |].
      intros Hin. rewrite Forall_forall in Hall. apply Hall in Hin. discriminate Hin. }
    unfold verifyOTP. rewrite Hget.
    destruct (now >? expiresAt storedData).
    { specialize (Hgone Expired ltac:(discriminate)).
      now destruct (verifyEach identifier rest (delete identifier st)). }
    destruct (Z.geb_spec (attempts storedData) 3) as [Hcap | Hbelow].
    { specialize (Hgone LockedOut ltac:(discriminate)).
      now destruct (verifyEach identifier rest (delete identifier st)). }
    destruct b as [| b]; [lia |].
    cbn in Hwrong. apply Forall_cons in Hwrong as [Hguess Hwrong]. cbn in Hguess.
    destruct (String.eqb_spec (otp storedData) guess) as [Heq | Hne]; [congruence |].
    cbn [negb].
    specialize (IH (<[identifier := incrAttempts storedData]> st)
                   (incrAttempts storedData) b (lookup_insert_eq _ _ _) Hcode).
    cbn in IH. specialize (IH ltac:(lia) Hwrong).
    destruct (verifyEach identifier rest (<[identifier := incrAttempts storedData]> st))
      as [results final].
    cbn in *. apply not_elem_of_cons. split; [discriminate | exact IH].
Qed.

(** X6. An issued code allows three guesses: in any sequence of verify
    calls for the identifier that follows an issue, at any times, no call
    returns [Success] when the first three submitted codes are wrong, also
    when a later call submits the issued code. *)
Theorem three_wrong_guesses_lock
    (t0 : Z) (identifier code : string) (calls : list (Z * string)) (otpStore : Store) :
  Forall (fun call => call.2 <> code) (take 3 calls) ->
  Success ∉ (verifyEach identifier calls (storeOTP t0 identifier code otpStore)).1.
Proof.
  intros Hwrong.
  eapply (verifyEach_no_success identifier code calls _ _ 3%nat);
    [apply storeOTP_lookup | reflexivity | cbn; lia | exact Hwrong].
Qed.

Lemma three_wrong_guesses_lock_witness :
  Success ∉ (verifyEach "a@x.com"
               [(1, "111111"); (2, "222222"); (3, "333333"); (4, "482913")]
               (storeOTP 0 "a@x.com" "482913" ∅)).1.
Proof.
  apply (three_wrong_guesses_lock 0 "a@x.com" "482913"
           [(1, "111111"); (2, "222222"); (3, "333333"); (4, "482913")] ∅).
  repeat constructor; discriminate.
Defined.

(** X7. Whatever codes are submitted and whenever, at most three of the
    verify calls that follow an issue return [Mismatch]. *)
Theorem at_most_three_mismatches
    (t0 : Z) (identifier code : string) (calls : list (Z * string)) (otpStore : Store) :
  (length (filter (fun result => result = Mismatch)
     (verifyEach identifier calls (storeOTP t0 identifier code otpStore)).1) <= 3)%nat.
Proof.
  eapply verifyEach_mismatches; [apply storeOTP_lookup | cbn; lia].
Qed.

(** ** The sweep and the other operations *)

Lemma sweepExpired_delete (now : Z) (k : string) (st : Store) :
  sweepExpired now (delete k st) = delete k (sweepExpired now st).
Proof.
  apply map_eq. intros j. apply option_eq. intros r.
  rewrite lookup_delete_Some, !sweepExpired_lookup_Some, lookup_delete_Some. tauto.
Qed.

Lemma sweepExpired_insert_live (now : Z) (k : string) (data : OtpRecord) (st : Store) :
  ~ expiresAt data < now ->
  sweepExpired now (<[k := data]> st) = <[k := data]> (sweepExpired now st).
Proof.
  intros Hlive. apply map_eq. intros j. apply option_eq. intros r.
  rewrite lookup_insert_Some, !sweepExpired_lookup_Some, lookup_insert_Some.
  split.
  - intros [[[-> <-] | [Hne Hget]] Hr]; [left | right]; tauto.
  - intros [[-> <-] | [Hne [Hget Hr]]]; [split; [left |] | split; [right |]]; tauto.
Qed.

Lemma sweepExpired_lookup_None (now : Z) (k : string) (data : OtpRecord) (st : Store) :
  st !! k = Some data -> expiresAt data < now -> sweepExpired now st !! k = None.
Proof.
  intros Hget Hexp. apply eq_None_not_Some. intros [r Hr].
  apply sweepExpired_lookup_Some in Hr as [Hget' Hlive]. congruence.
Qed.

(** X8. The sweep is transparent for verification: when the clock of the
    verify call is not before the clock of the sweep, verifying after the
    sweep leaves the same store as sweeping after the verification and
    reports success in the same cases; the result is the same too, except
    that a record the sweep already removed gives [NotFound] in place of
    [Expired]. *)
Theorem sweep_transparent
    (swept now : Z) (identifier code : string) (otpStore : Store) :
  swept <= now ->
  let direct := verifyOTP now identifier code otpStore in
  let after := verifyOTP now identifier code (sweepExpired swept otpStore) in
  snd after = sweepExpired swept (snd direct) /\
  success (fst after) = success (fst direct) /\
  (fst after = fst direct \/ (fst direct = Expired /\ fst after = NotFound)).
Proof.
  intros Hclock direct after. subst direct after.
  destruct (otpStore !! identifier) as [storedData |] eqn:Hget.
  - destruct (Z_lt_le_dec (expiresAt storedData) swept) as [Hgone | Hkept].
    + rewrite (verify_absent now identifier code (sweepExpired swept otpStore))
        by (eapply sweepExpired_lookup_None; eassumption).
      rewrite (verify_expired now identifier code otpStore storedData Hget) by lia.
      cbn. repeat split; [| right; now split].
      rewrite sweepExpired_delete. symmetry. apply delete_id.
      eapply sweepExpired_lookup_None; eassumption.
    + assert (Hget' : sweepExpired swept otpStore !! identifier = Some storedData)
        by (apply sweepExpired_lookup_Some; split; [assumption | lia]).
      unfold verifyOTP. rewrite Hget, Hget'.
      destruct (now >? expiresAt storedData);
        [cbn; rewrite sweepExpired_delete; auto |].
      destruct (attempts storedData >=? 3);
        [cbn; rewrite sweepExpired_delete; auto |].
      destruct (negb (otp storedData =? code)%string); cbn.
      * rewrite sweepExpired_insert_live by (cbn; lia). auto.
      * rewrite sweepExpired_delete. auto.
  - assert (Hget' : sweepExpired swept otpStore !! identifier = None).
    { apply eq_None_not_Some. intros [r Hr].
      apply sweepExpired_lookup_Some in Hr as [Hr _]. congruence. }
    rewrite !verify_absent by assumption. cbn. auto.
Qed.

Lemma sweep_transparent_witness :
  success (fst (verifyOTP 700000 "a@x.com" "482913"
                  (sweepExpired 650000 (storeOTP 0 "a@x.com" "482913" ∅))))
  = success (fst (verifyOTP 700000 "a@x.com" "482913" (storeOTP 0 "a@x.com" "482913" ∅))).
Proof.
  refine (proj1 (proj2
    (sweep_transparent 650000 700000 "a@x.com" "482913"
       (storeOTP 0 "a@x.com" "482913" ∅) _))).
  vm_compute. discriminate.
Defined.

(** X9. Two sweeps in a row amount to one sweep at the later of the two
    clocks, in whichever order they run. *)
Theorem sweepExpired_twice (first second : Z) (otpStore : Store) :
  sweepExpired second (sweepExpired first otpStore)
  = sweepExpired (Z.max first second) otpStore.
Proof.
  apply map_eq. intros k. apply option_eq. intros r.
  rewrite !sweepExpired_lookup_Some. split.
  - intros [[Hget H1] H2]. split; [exact Hget | lia].
  - intros [Hget H]. repeat split; [exact Hget | lia | lia].
Qed.

(** ** Where a stored code comes from *)

Lemma run_snoc (ops : list Op) (o : Op) : run (ops ++ [o])%list = step o (run ops).
Proof. unfold run. now rewrite foldl_app. Qed.

(** A step that is not an issue for the identifier keeps its record, up to
    the count of attempts, or removes it. *)
Lemma step_keeps_code (o : Op) (st : Store) (identifier : string) (data : OtpRecord) :
  (forall t c, o <> Issue t identifier c) ->
  step o st !! identifier = Some data ->
  exists before,
    st !! identifier = Some before /\ otp data = otp before /\
    expiresAt data = expiresAt before.
Proof.
  intros Hother Hget. destruct o as [t k c | t k c | t]; cbn in Hget.
  - destruct (decide (identifier = k)) as [-> | Hne]; [now destruct (Hother t c) |].
    rewrite storeOTP_lookup_ne in Hget by assumption. now exists data.
  - destruct (decide (identifier = k)) as [-> | Hne].
    + unfold verifyOTP in Hget.
      destruct (st !! k) as [storedData |] eqn:Hst; [| cbn in Hget; congruence].
      destruct (t >? expiresAt storedData);
        [cbn in Hget; now rewrite lookup_delete_eq in Hget |].
      destruct (attempts storedData >=? 3);
        [cbn in Hget; now rewrite lookup_delete_eq in Hget |].
      destruct (negb (otp storedData =? c)%string); cbn in Hget;
        [| now rewrite lookup_delete_eq in Hget].
      rewrite lookup_insert_eq in Hget. injection Hget as <-.
      now exists storedData.
    + rewrite verifyOTP_lookup_ne in Hget by assumption. now exists data.
  - apply sweepExpired_lookup_Some in Hget as [Hget _]. now exists data.
Qed.

(** The record of an identifier carries the code and the expiry of the
    latest issue for that identifier. *)
Lemma run_latest_issue (ops : list Op) :
  forall identifier data,
    run ops !! identifier = Some data ->
    exists earlier later t0,
      ops = (earlier ++ Issue t0 identifier (otp data) :: later)%list /\
      Forall (fun o => forall t c, o <> Issue t identifier c) later /\
      expiresAt data = t0 + TTL.
Proof.
  induction ops as [| o ops IH] using rev_ind; intros identifier data Hget.
  - unfold run in Hget. cbn in Hget. now rewrite lookup_empty in Hget.
  - rewrite run_snoc in Hget.
    assert (Hcase : (exists t c, o = Issue t identifier c) \/
                    (forall t c, o <> Issue t identifier c)).
    { destruct o as [t k c | t k c | t]; try (right; discriminate).
      destruct (decide (k = identifier)) as [-> | Hne];
        [left; now exists t, c | right; congruence]. }
    destruct Hcase as [(t & c & ->) | Hother].
    + cbn in Hget. rewrite storeOTP_lookup in Hget. injection Hget as <-.
      exists ops, [], t. cbn. repeat split. constructor.
    + destruct (step_keeps_code o (run ops) identifier data Hother Hget)
        as (before & Hbefore & Hotp & Hexp).
      destruct (IH identifier before Hbefore) as (earlier & later & t0 & -> & Hlater & Ht0).
      exists earlier, (later ++ [o])%list, t0. rewrite Hotp, Hexp. repeat split.
      * now rewrite <- app_assoc.
      * apply Forall_app. split; [assumption | now constructor].
      * assumption.
Qed.

(** X10. In the store reached by any history of issue, verify and sweep
    operations, the record of an identifier holds the code of the latest
    issue for that identifier and expires [TTL] after that issue: no
    operation on another identifier and no earlier issue leaves its code
    there. *)
Theorem stored_code_is_latest_issue (ops : list Op) (identifier : string) (data : OtpRecord) :
  run ops !! identifier = Some data ->
  exists earlier later t0,
    ops = (earlier ++ Issue t0 identifier (otp data) :: later)%list /\
    Forall (fun o => forall t c, o <> Issue t identifier c) later /\
    expiresAt data = t0 + TTL.
Proof. apply run_latest_issue. Qed.

Lemma stored_code_is_latest_issue_witness :
  exists earlier later t0,
    [Issue 0 "a@x.com" "111111"; Issue 5 "b@x.com" "222222"; Issue 7 "a@x.com" "482913";
     Verify 8 "a@x.com" "333333"; Sweep 9]
    = (earlier ++ Issue t0 "a@x.com"
                    (otp {| otp := "482913"; expiresAt := 600007; attempts := 1 |}) :: later)%list /\
    Forall (fun o => forall t c, o <> Issue t "a@x.com" c) later /\
    expiresAt {| otp := "482913"; expiresAt := 600007; attempts := 1 |} = t0 + TTL.
Proof.
  apply (stored_code_is_latest_issue
           [Issue 0 "a@x.com" "111111"; Issue 5 "b@x.com" "222222";
            Issue 7 "a@x.com" "482913"; Verify 8 "a@x.com" "333333"; Sweep 9]
           "a@x.com").
  vm_compute. reflexivity.
Defined.

(** X11. A verification that succeeds after any history was preceded by an
    issue of exactly the submitted code for that identifier, with no later
    issue for the identifier in between, and the verify clock is at most
    [TTL] after the clock of that issue. *)
Theorem success_needs_latest_issue
    (ops : list Op) (now : Z) (identifier code : string) :
  fst (verifyOTP now identifier code (run ops)) = Success ->
  exists earlier later t0,
    ops = (earlier ++ Issue t0 identifier code :: later)%list /\
    Forall (fun o => forall t c, o <> Issue t identifier c) later /\
    now <= t0 + TTL.
Proof.
  intros Hok.
  destruct (verifyOTP_Success_inv now identifier code (run ops)) as
    (data & Hget & Hlive & _ & Hcode); [now rewrite Hok |].
  destruct (run_latest_issue ops identifier data Hget) as (earlier & later & t0 & H & Hl & Ht).
  exists earlier, later, t0. rewrite <- Hcode. repeat split; [assumption .. | lia].
Qed.

Lemma success_needs_latest_issue_witness :
  exists earlier later t0,
    [Issue 0 "a@x.com" "111111"; Issue 7 "a@x.com" "482913"; Sweep 9]
    = (earlier ++ Issue t0 "a@x.com" "482913" :: later)%list /\
    Forall (fun o => forall t c, o <> Issue t "a@x.com" c) later /\
    10 <= t0 + TTL.
Proof.
  apply (success_needs_latest_issue
           [Issue 0 "a@x.com" "111111"; Issue 7 "a@x.com" "482913"; Sweep 9]
           10 "a@x.com" "482913").
  vm_compute. reflexivity.
Defined.

(** ** The request handlers *)

(** The store after a send request with a non-empty recipient. *)
Lemma postSendEmailOtp_store
    (now : Z) (random : spec_float) (delivered : bool) (address : string) (st : Store) :
  address <> EmptyString ->
  snd (postSendEmailOtp now random delivered (Some address) st)
  = storeOTP now address (generateOTP random) st.
Proof.
  intros Hne. unfold postSendEmailOtp.
  destruct (String.eqb_spec address EmptyString); [contradiction |].
  now destruct delivered.
Qed.

Lemma postSendSmsOtp_store
    (now : Z) (random : spec_float) (delivered : bool) (number : string) (st : Store) :
  number <> EmptyString ->
  snd (postSendSmsOtp now random delivered (Some number) st)
  = storeOTP now number (generateOTP random) st.
Proof.
  intros Hne. unfold postSendSmsOtp.
  destruct (String.eqb_spec number EmptyString); [contradiction |].
  now destruct delivered.
Qed.

(** X12. A send request stores the generated code before the delivery is
    attempted and nothing undoes it: with a non-empty recipient in the body
    the store afterwards holds the fresh record whether the delivery
    resolved (status 200) or failed (status 500); with a body whose
    recipient is missing or empty the answer is 400 and the store is
    untouched; with no parsed body at all the answer is 500 and the store is
    untouched. *)
Theorem send_stores_before_delivery
    (now : Z) (random : spec_float) (delivered : bool) (reqBody : option RequestBody)
    (otpStore : Store) :
  let email := sendEmailOtpRoute now random delivered reqBody otpStore in
  let sms := sendSmsOtpRoute now random delivered reqBody otpStore in
  let fresh := {| otp := generateOTP random; expiresAt := now + TTL; attempts := 0 |} in
  match reqBody with
  | None =>
      email = (mkHttpResponse 500 (mkJsonBody false "Failed to send OTP email" None),
               otpStore) /\
      sms = (mkHttpResponse 500 (mkJsonBody false "Failed to send OTP SMS" None), otpStore)
  | Some fields =>
      match reqEmail fields with
      | Some (String c rest) =>
          status (fst email) = (if delivered then 200 else 500) /\
          bodySuccess (body (fst email)) = delivered /\
          snd email = storeOTP now (String c rest) (generateOTP random) otpStore /\
          snd email !! String c rest = Some fresh
      | _ =>
          email = (mkHttpResponse 400 (mkJsonBody false "Email is required" None), otpStore)
      end /\
      match reqPhone fields with
      | Some (String c rest) =>
          status (fst sms) = (if delivered then 200 else 500) /\
          bodySuccess (body (fst sms)) = delivered /\
          snd sms = storeOTP now (String c rest) (generateOTP random) otpStore /\
          snd sms !! String c rest = Some fresh
      | _ =>
          sms = (mkHttpResponse 400 (mkJsonBody false "Phone number is required" None),
                 otpStore)
      end
  end.
Proof.
  destruct reqBody as [[email phone ident code] |]; cbv zeta; [| now split].
  cbn [sendEmailOtpRoute sendSmsOtpRoute reqEmail reqPhone]. split.
  - destruct email as [[| c rest] |]; [reflexivity | | reflexivity].
    rewrite postSendEmailOtp_store by discriminate. rewrite storeOTP_lookup.
    unfold postSendEmailOtp. cbn [String.eqb]. destruct delivered; repeat split.
  - destruct phone as [[| c rest] |]; [reflexivity | | reflexivity].
    rewrite postSendSmsOtp_store by discriminate. rewrite storeOTP_lookup.
    unfold postSendSmsOtp. cbn [String.eqb]. destruct delivered; repeat split.
Qed.

(** A verify request for a freshly stored, non-empty code. *)
Lemma postVerifyOtp_fresh
    (t0 t1 t2 : Z) (identifier code : string) (st : Store) :
  identifier <> EmptyString -> code <> EmptyString -> t1 <= t0 + TTL ->
  let first := postVerifyOtp t1 (Some identifier) (Some code)
                 (storeOTP t0 identifier code st) in
  let second := postVerifyOtp t2 (Some identifier) (Some code) (snd first) in
  fst first = mkHttpResponse 200 (mkJsonBody true "OTP verified successfully" None) /\
  fst second = mkHttpResponse 400 (mkJsonBody false "OTP not found or expired" None).
Proof.
  intros Hid Hcode Hlive first second.
  assert (Hv1 : verifyOTP t1 identifier code (storeOTP t0 identifier code st)
                = (Success, delete identifier (storeOTP t0 identifier code st))).
  { eapply verify_match; [apply storeOTP_lookup | cbn; lia .. | reflexivity]. }
  assert (E1 : first = (mkHttpResponse 200 (jsonOfResult Success),
                        delete identifier (storeOTP t0 identifier code st))).
  { subst first. unfold postVerifyOtp.
    destruct (String.eqb_spec identifier EmptyString); [contradiction |].
    destruct (String.eqb_spec code EmptyString); [contradiction |]. cbn [orb].
    now rewrite Hv1. }
  split; [now rewrite E1 |].
  subst second. rewrite E1. cbn [snd]. unfold postVerifyOtp.
  destruct (String.eqb_spec identifier EmptyString); [contradiction |].
  destruct (String.eqb_spec code EmptyString); [contradiction |]. cbn [orb].
  rewrite verify_absent by apply lookup_delete_eq. reflexivity.
Qed.

(** X13. The code of a send request verifies once: after a send request
    for a non-empty recipient, with any outcome of the delivery, a verify
    request with the generated code no later than [TTL] after the send is
    answered 200 'OTP verified successfully', and the same request again is
    answered 400 'OTP not found or expired'.  This holds for the email and
    for the SMS handler. *)
Theorem send_then_verify_once
    (t0 t1 t2 : Z) (random : spec_float) (delivered : bool) (recipient : string)
    (otpStore : Store) :
  isRandomValue random = true -> recipient <> EmptyString -> t1 <= t0 + TTL ->
  let verified := mkHttpResponse 200 (mkJsonBody true "OTP verified successfully" None) in
  let consumed := mkHttpResponse 400 (mkJsonBody false "OTP not found or expired" None) in
  let request now st := postVerifyOtp now (Some recipient) (Some (generateOTP random)) st in
  let email := snd (postSendEmailOtp t0 random delivered (Some recipient) otpStore) in
  let sms := snd (postSendSmsOtp t0 random delivered (Some recipient) otpStore) in
  fst (request t1 email) = verified /\
  fst (request t2 (snd (request t1 email))) = consumed /\
  fst (request t1 sms) = verified /\
  fst (request t2 (snd (request t1 sms))) = consumed.
Proof.
  intros Hrandom Hrecipient Hlive verified consumed request email sms.
  subst email sms request. cbv beta.
  rewrite postSendEmailOtp_store, postSendSmsOtp_store by assumption.
  pose proof (postVerifyOtp_fresh t0 t1 t2 recipient (generateOTP random) otpStore
                Hrecipient (generateOTP_nonempty random Hrandom) Hlive) as H.
  cbv zeta in H. destruct H as [H1 H2]. repeat split; assumption.
Qed.

Lemma send_then_verify_once_witness :
  fst (postVerifyOtp 5 (Some "a@x.com")
         (Some (generateOTP (S754_finite false 4503599627370496 (-53))))
         (snd (postSendEmailOtp 0 (S754_finite false 4503599627370496 (-53)) false
                 (Some "a@x.com") ∅)))
  = mkHttpResponse 200 (mkJsonBody true "OTP verified successfully" None).
Proof.
  refine (proj1 (send_then_verify_once 0 5 9 (S754_finite false 4503599627370496 (-53))
                   false "a@x.com" ∅ _ _ _)).
  - vm_compute. reflexivity.
  - discriminate.
  - vm_compute. discriminate.
Defined.

(** A request either misses a field or has both, non-empty. *)
Lemma request_fields_cases (identifier submitted : option string) :
  (identifier = None \/ identifier = Some EmptyString \/
   submitted = None \/ submitted = Some EmptyString) \/
  (exists ident code,
     identifier = Some ident /\ submitted = Some code /\
     ident <> EmptyString /\ code <> EmptyString).
Proof.
  destruct identifier as [ident |]; [| auto].
  destruct submitted as [code |]; [| auto].
  destruct (String.eqb_spec ident EmptyString) as [-> | Hi]; [auto |].
  destruct (String.eqb_spec code EmptyString) as [-> | Hc]; [auto 6 |].
  right. now exists ident, code.
Qed.

(** The answers of the handler for a parsed body, by the fields. *)
Lemma postVerifyOtp_parsed
    (now : Z) (identifier submitted : option string) (otpStore : Store) :
  let answer := postVerifyOtp now identifier submitted otpStore in
  (status (fst answer) = 200 \/ status (fst answer) = 400) /\
  (status (fst answer) = 200 <->
   exists ident code storedData,
     identifier = Some ident /\ submitted = Some code /\
     ident <> EmptyString /\ code <> EmptyString /\
     otpStore !! ident = Some storedData /\ now <= expiresAt storedData /\
     attempts storedData < 3 /\ otp storedData = code) /\
  (bodySuccess (body (fst answer)) = true <-> status (fst answer) = 200) /\
  ((identifier = None \/ identifier = Some EmptyString \/
    submitted = None \/ submitted = Some EmptyString) ->
   answer = (mkHttpResponse 400 (mkJsonBody false "Identifier and OTP are required" None),
             otpStore)).
Proof.
  intros answer. subst answer.
  assert (Hmissing : identifier = None \/ identifier = Some EmptyString \/
                     submitted = None \/ submitted = Some EmptyString ->
            postVerifyOtp now identifier submitted otpStore
            = (mkHttpResponse 400 (mkJsonBody false "Identifier and OTP are required" None),
               otpStore)).
  { intros [-> | [-> | [-> | ->]]]; unfold postVerifyOtp.
    - reflexivity.
    - now destruct submitted.
    - now destruct identifier.
    - destruct identifier as [ident |]; [| reflexivity].
      now rewrite String.eqb_refl, orb_true_r. }
  destruct (request_fields_cases identifier submitted) as [Hm | (ident & code & -> & -> & Hi & Hc)].
  { rewrite (Hmissing Hm). cbn. split; [now right |]. split; [| split].
    - split; [discriminate |].
      intros (i & c & r & -> & -> & Hi & Hc & _).
      destruct Hm as [[=] | [[= ->] | [[=] | [= ->]]]]; contradiction.
    - split; discriminate.
    - reflexivity. }
  assert (Hrun : postVerifyOtp now (Some ident) (Some code) otpStore
                 = let '(result, st) := verifyOTP now ident code otpStore in
                   if success result then (mkHttpResponse 200 (jsonOfResult result), st)
                   else (mkHttpResponse 400 (jsonOfResult result), st)).
  { unfold postVerifyOtp.
    destruct (String.eqb_spec ident EmptyString); [contradiction |].
    destruct (String.eqb_spec code EmptyString); [contradiction |]. reflexivity. }
  rewrite Hrun.
  pose proof (verifyOTP_Success_inv now ident code otpStore) as Hinv.
  destruct (verifyOTP now ident code otpStore) as [result st] eqn:Hv. cbn [fst] in Hinv.
  destruct (success result) eqn:Hs; cbn [fst snd status body jsonOfResult bodySuccess].
  - split; [now left |]. split; [| split].
    + split; [| reflexivity]. intros _. destruct (Hinv eq_refl) as (storedData & H).
      exists ident, code, storedData. tauto.
    + rewrite Hs. split; reflexivity.
    + intros [[=] | [[= ->] | [[=] | [= ->]]]]; contradiction.
  - split; [now right |]. split; [| split].
    + split; [discriminate |].
      intros (i & c & storedData & [= <-] & [= <-] & _ & _ & Hget & Hl & Hb & He).
      rewrite (verify_match now ident code otpStore storedData Hget Hl Hb He) in Hv.
      injection Hv as <- _. discriminate Hs.
    + rewrite Hs. split; discriminate.
    + intros [[=] | [[= ->] | [[=] | [= ->]]]]; contradiction.
Qed.

(** X14. The verify handler answers 500 'Failed to verify OTP' exactly
    when the request has no parsed body, and then leaves the store
    untouched.  For a parsed body it answers 200 or 400: 200 (with success
    true) exactly when both fields are present and non-empty and the
    identifier has a record that is not past [expiresAt], has fewer than
    three failed attempts and holds the submitted code; a body with a
    missing or empty field is answered 400 'Identifier and OTP are required'
    and leaves the store untouched, so it does not count as an attempt. *)
Theorem verifyOtpRoute_status (now : Z) (reqBody : option RequestBody) (otpStore : Store) :
  let answer := verifyOtpRoute now reqBody otpStore in
  (status (fst answer) = 200 \/ status (fst answer) = 400 \/ status (fst answer) = 500) /\
  (status (fst answer) = 500 <-> reqBody = None) /\
  (reqBody = None ->
   answer = (mkHttpResponse 500 (mkJsonBody false "Failed to verify OTP" None), otpStore)) /\
  (status (fst answer) = 200 <->
   exists fields ident code storedData,
     reqBody = Some fields /\
     reqIdentifier fields = Some ident /\ reqOtp fields = Some code /\
     ident <> EmptyString /\ code <> EmptyString /\
     otpStore !! ident = Some storedData /\ now <= expiresAt storedData /\
     attempts storedData < 3 /\ otp storedData = code) /\
  (bodySuccess (body (fst answer)) = true <-> status (fst answer) = 200) /\
  (forall fields, reqBody = Some fields ->
     (reqIdentifier fields = None \/ reqIdentifier fields = Some EmptyString \/
      reqOtp fields = None \/ reqOtp fields = Some EmptyString) ->
     answer = (mkHttpResponse 400 (mkJsonBody false "Identifier and OTP are required" None),
               otpStore)).
Proof.
  intros answer. subst answer. destruct reqBody as [fields |]; cbn [verifyOtpRoute].
  - pose proof (postVerifyOtp_parsed now (reqIdentifier fields) (reqOtp fields) otpStore)
      as H.
    cbv zeta in H. destruct H as (Hstatus & H200 & Hflag & Hmissing).
    split; [destruct Hstatus as [-> | ->]; auto |].
    split; [split; [intros H500; destruct Hstatus as [E | E]; rewrite E in H500;
                    discriminate H500 | discriminate] |].
    split; [discriminate |]. split; [| split; [exact Hflag |]].
    + rewrite H200. split.
      * intros (ident & code & storedData & H). exists fields, ident, code, storedData.
        tauto.
      * intros (fields' & ident & code & storedData & [= <-] & H).
        exists ident, code, storedData. exact H.
    + intros fields' [= <-]. exact Hmissing.
  - cbn. split; [auto |]. split; [split; reflexivity |]. split; [reflexivity |].
    split; [split; [discriminate | intros (? & ? & ? & ? & [=] & _)] |].
    split; [split; discriminate | intros fields [=]].
Qed.

(** ** Operations on distinct identifiers *)

(** What [verifyOTP] returns and what it leaves under its identifier depend
    on the record of that identifier only. *)
Lemma verifyOTP_local (now : Z) (identifier code : string) (st1 st2 : Store) :
  st1 !! identifier = st2 !! identifier ->
  fst (verifyOTP now identifier code st1) = fst (verifyOTP now identifier code st2) /\
  snd (verifyOTP now identifier code st1) !! identifier
  = snd (verifyOTP now identifier code st2) !! identifier.
Proof.
  intros Heq. unfold verifyOTP. rewrite Heq.
  destruct (st2 !! identifier) as [storedData |] eqn:Hget;
    [| cbn; split; [reflexivity | congruence]].
  destruct (now >? expiresAt storedData); [cbn; now rewrite !lookup_delete_eq |].
  destruct (attempts storedData >=? 3); [cbn; now rewrite !lookup_delete_eq |].
  destruct (negb (otp storedData =? code)%string); cbn;
    [now rewrite !lookup_insert_eq | now rewrite !lookup_delete_eq].
Qed.

(** X15. Operations on two distinct identifiers do not interfere: two
    issues commute; a verify call for one identifier returns the same
    result before and after an issue or a verify call for the other, and
    the two orders leave the same store. *)
Theorem distinct_identifiers_commute
    (ta tb : Z) (a b ca cb : string) (otpStore : Store) :
  a <> b ->
  storeOTP ta a ca (storeOTP tb b cb otpStore) = storeOTP tb b cb (storeOTP ta a ca otpStore) /\
  fst (verifyOTP ta a ca (storeOTP tb b cb otpStore)) = fst (verifyOTP ta a ca otpStore) /\
  snd (verifyOTP ta a ca (storeOTP tb b cb otpStore))
  = storeOTP tb b cb (snd (verifyOTP ta a ca otpStore)) /\
  fst (verifyOTP ta a ca (snd (verifyOTP tb b cb otpStore))) = fst (verifyOTP ta a ca otpStore) /\
  snd (verifyOTP ta a ca (snd (verifyOTP tb b cb otpStore)))
  = snd (verifyOTP tb b cb (snd (verifyOTP ta a ca otpStore))).
Proof.
  intros Hab.
  assert (Hba : b <> a) by congruence.
  assert (Hissue : storeOTP tb b cb otpStore !! a = otpStore !! a)
    by now apply storeOTP_lookup_ne.
  assert (Hverify : snd (verifyOTP tb b cb otpStore) !! a = otpStore !! a)
    by now apply verifyOTP_lookup_ne.
  assert (Hverify' : snd (verifyOTP ta a ca otpStore) !! b = otpStore !! b)
    by now apply verifyOTP_lookup_ne.
  destruct (verifyOTP_local ta a ca _ _ Hissue) as [Hr1 Hs1].
  destruct (verifyOTP_local ta a ca _ _ Hverify) as [Hr2 Hs2].
  destruct (verifyOTP_local tb b cb _ _ Hverify') as [_ Hs3].
  repeat split; try assumption.
  - unfold storeOTP. now apply insert_insert_ne.
  - apply map_eq. intros k. destruct (decide (k = a)) as [-> | Hka].
    + rewrite Hs1. symmetry. now apply storeOTP_lookup_ne.
    + rewrite verifyOTP_lookup_ne by assumption.
      destruct (decide (k = b)) as [-> | Hkb].
      * now rewrite !storeOTP_lookup.
      * now rewrite !storeOTP_lookup_ne, verifyOTP_lookup_ne.
  - apply map_eq. intros k. destruct (decide (k = a)) as [-> | Hka].
    + rewrite Hs2. symmetry. now apply verifyOTP_lookup_ne.
    + rewrite verifyOTP_lookup_ne by assumption.
      destruct (decide (k = b)) as [-> | Hkb].
      * now rewrite Hs3.
      * now rewrite !verifyOTP_lookup_ne.
Qed.

Lemma distinct_identifiers_commute_witness :
  storeOTP 1 "a@x.com" "482913" (storeOTP 2 "b@x.com" "111111" ∅)
  = storeOTP 2 "b@x.com" "111111" (storeOTP 1 "a@x.com" "482913" ∅).
Proof.
  refine (proj1 (distinct_identifiers_commute 1 2 "a@x.com" "b@x.com" "482913" "111111" ∅ _)).
  discriminate.
Defined.

(** ** What the server keeps in the store *)

(** The effect of a request on the store is that of one operation of the
    core, or none. *)
Lemma handle_as_step (request : Request) (st : Store) :
  randomInRange request ->
  handle request st = st \/
  exists o,
    handle request st = step o st /\
    forall t identifier code, o = Issue t identifier code ->
      identifier <> EmptyString /\
      exists n, 100000 <= n <= 999999 /\ code = integerToString n.
Proof.
  intros Hrandom. destruct request as [now random delivered [address |]
                                      | now random delivered [number |]
                                      | now [ident |] [code |]
                                      | now]; cbn in *; try (left; reflexivity).
  - unfold postSendEmailOtp.
    destruct (String.eqb_spec address EmptyString) as [| Hne]; [left; reflexivity |].
    right. exists (Issue now address (generateOTP random)).
    split; [now destruct delivered |].
    intros t identifier code [= _ <- <-]. split; [assumption |].
    now apply generateOTP_integer.
  - unfold postSendSmsOtp.
    destruct (String.eqb_spec number EmptyString) as [| Hne]; [left; reflexivity |].
    right. exists (Issue now number (generateOTP random)).
    split; [now destruct delivered |].
    intros t identifier code [= _ <- <-]. split; [assumption |].
    now apply generateOTP_integer.
  - unfold postVerifyOtp.
    destruct (String.eqb ident EmptyString || String.eqb code EmptyString);
      [left; reflexivity |].
    right. exists (Verify now ident code). split; [| discriminate].
    cbn. destruct (verifyOTP now ident code st) as [result st'].
    now destruct (success result).
  - right. exists (Sweep now). split; [reflexivity | discriminate].
Qed.

Lemma step_wellFormed (o : Op) (st : Store) :
  (forall t identifier code, o = Issue t identifier code ->
     identifier <> EmptyString /\
     exists n, 100000 <= n <= 999999 /\ code = integerToString n) ->
  (forall identifier data, st !! identifier = Some data ->
     identifier <> EmptyString /\
     (exists n, 100000 <= n <= 999999 /\ otp data = integerToString n) /\
     0 <= attempts data <= 3) ->
  forall identifier data, step o st !! identifier = Some data ->
    identifier <> EmptyString /\
    (exists n, 100000 <= n <= 999999 /\ otp data = integerToString n) /\
    0 <= attempts data <= 3.
Proof.
  intros Hissue Hwf identifier data Hget.
  assert (Hbound : 0 <= attempts data <= 3).
  { apply (step_attemptsBounded o st) with (identifier := identifier); [| exact Hget].
    intros k r Hr. now apply (Hwf k r). }
  assert (Hcase : (exists t c, o = Issue t identifier c) \/
                  (forall t c, o <> Issue t identifier c)).
  { destruct o as [t k c | t k c | t]; try (right; discriminate).
    destruct (decide (k = identifier)) as [-> | Hne];
      [left; now exists t, c | right; congruence]. }
  destruct Hcase as [(t & c & ->) | Hother].
  - destruct (Hissue t identifier c eq_refl) as [Hid Hcode].
    cbn in Hget. rewrite storeOTP_lookup in Hget. injection Hget as <-.
    repeat split; [assumption | exact Hcode | cbn; lia | cbn; lia].
  - destruct (step_keeps_code o st identifier data Hother Hget)
      as (before & Hbefore & Hotp & _).
    destruct (Hwf identifier before Hbefore) as (Hid & Hcode & _).
    rewrite Hotp. repeat split; (assumption || lia).
Qed.

Lemma serve_wellFormed (requests : list Request) :
  Forall randomInRange requests ->
  forall st,
    (forall identifier data, st !! identifier = Some data ->
       identifier <> EmptyString /\
       (exists n, 100000 <= n <= 999999 /\ otp data = integerToString n) /\
       0 <= attempts data <= 3) ->
    forall identifier data,
      foldl (fun st request => handle request st) st requests !! identifier = Some data ->
      identifier <> EmptyString /\
      (exists n, 100000 <= n <= 999999 /\ otp data = integerToString n) /\
      0 <= attempts data <= 3.
Proof.
  induction 1 as [| request requests Hrandom _ IH]; intros st Hwf; [exact Hwf |].
  cbn [foldl]. apply IH.
  destruct (handle_as_step request st Hrandom) as [-> | (o & -> & Hissue)];
    [exact Hwf |].
  now apply step_wellFormed.
Qed.

(** X16. Whatever requests the server has answered (send, verify and
    clean-up ticks, in any order and at any times), every record in the
    store belongs to a non-empty identifier, holds a code of exactly six
    decimal digits, the digits of an integer between 100000 and 999999, and
    has between 0 and 3 failed attempts. *)
Theorem server_store_invariant
    (requests : list Request) (identifier : string) (data : OtpRecord) :
  Forall randomInRange requests ->
  serve requests !! identifier = Some data ->
  identifier <> EmptyString /\
  String.length (otp data) = 6%nat /\
  (exists n, 100000 <= n <= 999999 /\ otp data = integerToString n) /\
  0 <= attempts data <= 3.
Proof.
  intros Hrandom Hget.
  destruct (serve_wellFormed requests Hrandom ∅) with (identifier := identifier) (data := data)
    as (Hid & (n & Hn & Hcode) & Hbound); [| exact Hget |].
  - intros k r Hr. now rewrite lookup_empty in Hr.
  - repeat split; try (assumption || lia); [| now exists n].
    destruct (integerToString_six_digits n Hn) as (d5 & d4 & d3 & d2 & d1 & d0 & H).
    destruct H as (_ & _ & _ & _ & _ & _ & _ & Hstr). now rewrite Hcode, Hstr.
Qed.

Lemma server_store_invariant_witness :
  String.length (otp {| otp := "550000"; expiresAt := 600000; attempts := 1 |}) = 6%nat.
Proof.
  refine (proj1 (proj2 (server_store_invariant
    [SendSmsOtp 0 (S754_finite false 4503599627370496 (-53)) false (Some "+15550100");
     VerifyOtp 1 (Some "+15550100") (Some "111111"); CleanupTick 2]
    "+15550100" {| otp := "550000"; expiresAt := 600000; attempts := 1 |} _ _))).
  - repeat constructor.
  - vm_compute. reflexivity.
Defined.

(** ** The iteration order of the clean-up loop *)

(** X17. The clean-up loop gives the same store in whatever order the
    iterator yields the entries of the map: run over any arrangement of the
    entries, it removes exactly the records with [expiresAt < now] and
    keeps every other record as it is. *)
Theorem cleanup_order_irrelevant
    (now : Z) (entries : list (string * OtpRecord)) (otpStore : Store) :
  entries ≡ₚ map_to_list otpStore ->
  sweepLoop now entries otpStore = sweepExpired now otpStore /\
  forall identifier data,
    sweepLoop now entries otpStore !! identifier = Some data <->
    otpStore !! identifier = Some data /\ ~ expiresAt data < now.
Proof.
  intros Hperm.
  assert (Heq : sweepLoop now entries otpStore = sweepExpired now otpStore).
  { apply map_eq. intros k. apply option_eq. intros r.
    unfold sweepExpired. rewrite !sweepLoop_lookup_Some.
    split; intros [Hget Hall]; (split; [exact Hget |]); intros r' Hin; apply Hall.
    - now rewrite Hperm.
    - now rewrite <- Hperm. }
  split; [exact Heq |]. intros identifier data. rewrite Heq.
  apply sweepExpired_lookup_Some.
Qed.

Lemma cleanup_order_irrelevant_witness :
  sweepLoop 700000
    [("b@x.com", {| otp := "111111"; expiresAt := 800000; attempts := 0 |});
     ("a@x.com", {| otp := "482913"; expiresAt := 600000; attempts := 2 |})]
    (<["b@x.com" := {| otp := "111111"; expiresAt := 800000; attempts := 0 |}]>
       {["a@x.com" := {| otp := "482913"; expiresAt := 600000; attempts := 2 |}]})
  = sweepExpired 700000
      (<["b@x.com" := {| otp := "111111"; expiresAt := 800000; attempts := 0 |}]>
         {["a@x.com" := {| otp := "482913"; expiresAt := 600000; attempts := 2 |}]}).
Proof.
  refine (proj1 (cleanup_order_irrelevant 700000 _ _ _)).
  rewrite map_to_list_insert by (vm_compute; reflexivity).
  rewrite map_to_list_singleton. reflexivity.
Defined.
